(** * nlshell: command safety classification and execution engine

    A shallow embedding of the classifier of [ai_agent.py] and of the
    dispatcher, PTY session and batch orchestrator of [nlshell.py].

    Conventions of the embedding.
    - A Python [str] is a [string]; a character is a code point below 256
      (Latin-1), which is what [ascii] holds.
    - A call that can raise returns a [res]: [Ok v] or [Raise e].  Two
      classes of exception are told apart, as the handlers of the source
      tell them apart: [KeyboardInterrupt] (a [BaseException]) and
      [Exception msg] (any subclass of [Exception], with its [str(e)]).
    - What the operating system answers is given from outside: an
      [os_env] for the file system and the shell, and for a PTY session a
      [session_script] with the outcome of every call the session can
      make.  A function returns its result, the state afterwards and the
      calls it made, in order.
    - What [self.console.print] shows is not part of the calls a
      function returns; that it can raise is: the console is given from
      outside too, and answers for every text or panel whether it is
      shown or which exception leaves the call (rich raises a
      [MarkupError] for a text whose markup has a closing tag without
      its opening tag).  The characters above U+00FF of the fixed texts
      are written in UTF-8; no function looks into them. *)

From Stdlib Require Import String Ascii List ZArith NArith Bool Lia DecimalString.
Import ListNotations.
Local Open Scope string_scope.

(* ================================================================== *)
(** ** Python string methods used by the sources *)
(* ================================================================== *)

Module PyStr.

(** [str.isspace] on one code point below 256: TAB..CR, FS..US, SPACE,
    NEL (0x85) and NBSP (0xA0). *)
Definition is_space (c : ascii) : bool :=
  let n := N_of_ascii c in
  ((9 <=? n) && (n <=? 13) || (28 <=? n) && (n <=? 32)
   || (n =? 133) || (n =? 160))%N.

(** Decimal digits below 256 are '0'..'9'. *)
Definition is_digit (c : ascii) : bool :=
  let n := N_of_ascii c in ((48 <=? n) && (n <=? 57))%N.

(** Upper-case letters below 256: A..Z and U+00C0..U+00DE but U+00D7. *)
Definition is_upper (c : ascii) : bool :=
  let n := N_of_ascii c in
  ((65 <=? n) && (n <=? 90)
   || (192 <=? n) && (n <=? 222) && negb (n =? 215))%N.

Definition lower_char (c : ascii) : ascii :=
  if is_upper c then ascii_of_N (N_of_ascii c + 32) else c.

(** [s.lower()] *)
Fixpoint lower (s : string) : string :=
  match s with
  | EmptyString => EmptyString
  | String c s' => String (lower_char c) (lower s')
  end.

(** [s.lstrip()] *)
Fixpoint lstrip (s : string) : string :=
  match s with
  | EmptyString => EmptyString
  | String c s' => if is_space c then lstrip s' else s
  end.

(** [s.rstrip()] *)
Fixpoint rstrip (s : string) : string :=
  match s with
  | EmptyString => EmptyString
  | String c s' =>
      match rstrip s' with
      | EmptyString => if is_space c then EmptyString else String c EmptyString
      | r => String c r
      end
  end.

(** [s.strip()] *)
Definition strip (s : string) : string := rstrip (lstrip s).

(** [s.startswith(p)] *)
Definition startswith (s p : string) : bool := String.prefix p s.

(** [s.endswith(p)] *)
Fixpoint endswith (s p : string) : bool :=
  (s =? p) ||
  match s with
  | EmptyString => false
  | String _ s' => endswith s' p
  end.

(** [p in s] *)
Fixpoint contains (p s : string) : bool :=
  String.prefix p s ||
  match s with
  | EmptyString => false
  | String _ s' => contains p s'
  end.

(** [s[n:]] *)
Fixpoint drop (n : nat) (s : string) : string :=
  match n, s with
  | O, _ => s
  | S _, EmptyString => EmptyString
  | S n', String _ s' => drop n' s'
  end.

(** The characters of [s] up to the first white space. *)
Fixpoint until_space (s : string) : string :=
  match s with
  | EmptyString => EmptyString
  | String c s' => if is_space c then EmptyString else String c (until_space s')
  end.

(** [s.split()[0]], for a string with a character that is not white
    space ([s.split()] is empty otherwise and the index raises). *)
Definition first_token (s : string) : string := until_space (lstrip s).

Definition is_empty (s : string) : bool :=
  match s with EmptyString => true | _ => false end.

(** [s] has white space only. *)
Fixpoint all_space (s : string) : bool :=
  match s with
  | EmptyString => true
  | String c s' => is_space c && all_space s'
  end.

(** [s] is empty or starts with a character that is not white space. *)
Definition no_leading_space (s : string) : Prop :=
  match s with
  | EmptyString => True
  | String c _ => is_space c = false
  end.

(** ["\n"] *)
Definition LF : string := String (ascii_of_N 10) EmptyString.

(** [sep.join(items)] *)
Fixpoint join (sep : string) (items : list string) : string :=
  match items with
  | [] => ""
  | [x] => x
  | x :: items' => x ++ sep ++ join sep items'
  end.

(** [s * n] *)
Fixpoint repeat_str (s : string) (n : nat) : string :=
  match n with
  | 0 => ""
  | S n' => s ++ repeat_str s n'
  end.

(** [str(n)] of an [int], as an f-string formats it. *)
Definition str_int (n : Z) : string := NilZero.string_of_int (Z.to_int n).

Definition str_nat (n : nat) : string := NilZero.string_of_uint (Nat.to_uint n).

End PyStr.

(* ================================================================== *)
(** ** [re.match] on the pattern language of the rule table *)
(* ================================================================== *)

Module Re.
Import PyStr.

(** One-character classes: a literal, [.], [\s] and [\d]. *)
Inductive cls : Type :=
| CChr (c : ascii)
| CDot
| CSpace
| CDigit.

Definition newline : ascii := ascii_of_N 10.

Definition cls_mem (k : cls) (c : ascii) : bool :=
  match k with
  | CChr a => Ascii.eqb a c
  | CDot => negb (Ascii.eqb c newline)
  | CSpace => is_space c
  | CDigit => is_digit c
  end.

Inductive regex : Type :=
| Void
| Eps
| Cls (k : cls)
| Bol                       (* ^ *)
| Eol                       (* $ *)
| Seq (r1 r2 : regex)
| Alt (r1 r2 : regex)
| Star (r : regex).

Definition Plus (r : regex) : regex := Seq r (Star r).

(** *** The pattern parser

    One pass over the pattern with a stack of open groups.  A frame
    holds the finished alternatives of its group and the atoms of the
    alternative being read, both latest first; the flag says whether
    the latest atom can take a repeat.  Syntax outside the subset
    (character sets, counted and lazy repeats, other escapes) gives
    [None]. *)

Record frame : Type := mkFrame {
  f_alts : list regex;
  f_cur : list regex;
  f_rep : bool
}.

Definition frame0 : frame := mkFrame [] [] false.

Fixpoint mk_seq (l : list regex) : regex :=
  match l with
  | [] => Eps
  | [a] => a
  | a :: l' => Seq a (mk_seq l')
  end.

Fixpoint mk_alt (l : list regex) : regex :=
  match l with
  | [] => Void
  | [a] => a
  | a :: l' => Alt a (mk_alt l')
  end.

Definition close_frame (f : frame) : regex :=
  mk_alt (rev (mk_seq (rev (f_cur f)) :: f_alts f)).

Definition push_atom (a : regex) (rep : bool) (f : frame) : frame :=
  mkFrame (f_alts f) (a :: f_cur f) rep.

Definition repeat_last (q : regex -> regex) (f : frame) : option frame :=
  match f_rep f, f_cur f with
  | true, a :: l => Some (mkFrame (f_alts f) (q a :: l) false)
  | _, _ => None
  end.

Definition is_alnum (c : ascii) : bool :=
  let n := N_of_ascii c in
  ((48 <=? n) && (n <=? 57) || (65 <=? n) && (n <=? 90)
   || (97 <=? n) && (n <=? 122))%N.

Fixpoint parse (p : string) (top : frame) (stack : list frame) : option regex :=
  match p with
  | EmptyString =>
      match stack with
      | [] => Some (close_frame top)
      | _ :: _ => None
      end
  | String c p' =>
      if Ascii.eqb c "(" then parse p' frame0 (top :: stack)
      else if Ascii.eqb c ")" then
        match stack with
        | [] => None
        | f :: stack' => parse p' (push_atom (close_frame top) true f) stack'
        end
      else if Ascii.eqb c "|" then
        parse p' (mkFrame (mk_seq (rev (f_cur top)) :: f_alts top) [] false) stack
      else if Ascii.eqb c "*" then
        match repeat_last Star top with
        | Some top' => parse p' top' stack
        | None => None
        end
      else if Ascii.eqb c "+" then
        match repeat_last Plus top with
        | Some top' => parse p' top' stack
        | None => None
        end
      else if Ascii.eqb c "^" then parse p' (push_atom Bol false top) stack
      else if Ascii.eqb c "$" then parse p' (push_atom Eol false top) stack
      else if Ascii.eqb c "." then parse p' (push_atom (Cls CDot) true top) stack
      else if Ascii.eqb c "\" then
        match p' with
        | EmptyString => None
        | String e p'' =>
            if Ascii.eqb e "s" then parse p'' (push_atom (Cls CSpace) true top) stack
            else if Ascii.eqb e "d" then parse p'' (push_atom (Cls CDigit) true top) stack
            else if is_alnum e then None
            else parse p'' (push_atom (Cls (CChr e)) true top) stack
        end
      else if Ascii.eqb c "[" || Ascii.eqb c "{" || Ascii.eqb c "?" then None
      else parse p' (push_atom (Cls (CChr c)) true top) stack
  end.

(** [re.compile(p)] *)
Definition compile (p : string) : option regex := parse p frame0 [].

(** *** Matching by derivatives

    [b] says whether the position is the start of the subject, [post]
    is the input left at the position. *)

(** [$]: at the end, or before a newline that ends the subject. *)
Definition at_end (post : string) : bool :=
  match post with
  | EmptyString => true
  | String c EmptyString => Ascii.eqb c newline
  | _ => false
  end.

(** [r] matches the empty string here. *)
Fixpoint nu (b : bool) (post : string) (r : regex) : bool :=
  match r with
  | Void => false
  | Eps => true
  | Cls _ => false
  | Bol => b
  | Eol => at_end post
  | Seq r1 r2 => nu b post r1 && nu b post r2
  | Alt r1 r2 => nu b post r1 || nu b post r2
  | Star _ => true
  end.

(** What is left of [r] after it has read [c], the input here being
    [String c post]. *)
Fixpoint der (b : bool) (c : ascii) (post : string) (r : regex) : regex :=
  match r with
  | Void | Eps | Bol | Eol => Void
  | Cls k => if cls_mem k c then Eps else Void
  | Seq r1 r2 =>
      let d := Seq (der b c post r1) r2 in
      if nu b (String c post) r1 then Alt d (der b c post r2) else d
  | Alt r1 r2 => Alt (der b c post r1) (der b c post r2)
  | Star r1 => Seq (der b c post r1) (Star r1)
  end.

(** Does [r] match some prefix of [s]? *)
Fixpoint match_here (b : bool) (r : regex) (s : string) : bool :=
  nu b s r ||
  match s with
  | EmptyString => false
  | String c s' => match_here false (der b c s' r) s'
  end.

(** [re.match(p, s) is not None]; a pattern outside the subset matches
    nothing here (Python would raise or match otherwise, so statements
    over arbitrary patterns ask for [compile p <> None]). *)
Definition re_match (p s : string) : bool :=
  match compile p with
  | Some r => match_here true r s
  | None => false
  end.

(** *** What a pattern means

    [matches b r mid post]: at a position that is the start of the
    subject iff [b], with [mid ++ post] left to read, [r] matches
    exactly [mid]. *)
Inductive matches : bool -> regex -> string -> string -> Prop :=
| MEps b post : matches b Eps "" post
| MCls b k c post : cls_mem k c = true -> matches b (Cls k) (String c "") post
| MBol post : matches true Bol "" post
| MEol b post : at_end post = true -> matches b Eol "" post
| MSeq b r1 r2 m1 m2 post :
    matches b r1 m1 (m2 ++ post) ->
    matches (b && is_empty m1) r2 m2 post ->
    matches b (Seq r1 r2) (m1 ++ m2) post
| MAltL b r1 r2 mid post : matches b r1 mid post -> matches b (Alt r1 r2) mid post
| MAltR b r1 r2 mid post : matches b r2 mid post -> matches b (Alt r1 r2) mid post
| MStar0 b r post : matches b (Star r) "" post
| MStarS b r m1 m2 post :
    matches b r m1 (m2 ++ post) ->
    matches (b && is_empty m1) (Star r) m2 post ->
    matches b (Star r) (m1 ++ m2) post.

(** [r] matches a prefix of [s], as [re.match] asks. *)
Definition matches_prefix (r : regex) (s : string) : Prop :=
  exists mid post, s = mid ++ post /\ matches true r mid post.

(** *** The characters a match must start with

    [mpre r] is a sequence of classes every match of [r] starts with,
    and whether every match is exactly one character of each. *)
Fixpoint mpre (r : regex) : list cls * bool :=
  match r with
  | Eps | Bol | Eol => ([], true)
  | Cls k => ([k], true)
  | Seq r1 r2 =>
      let '(p1, e1) := mpre r1 in
      if e1 then let '(p2, e2) := mpre r2 in ((p1 ++ p2)%list, e2)
      else (p1, false)
  | Void | Alt _ _ | Star _ => ([], false)
  end.

(** [s] starts with one character of each class of [p]. *)
Fixpoint fits (p : list cls) (s : string) : bool :=
  match p, s with
  | [], _ => true
  | _ :: _, EmptyString => false
  | k :: p', String c s' => cls_mem k c && fits p' s'
  end.

(** No character is in both classes. *)
Definition cls_disjoint (k1 k2 : cls) : bool :=
  match k1, k2 with
  | CChr a, _ => negb (cls_mem k2 a)
  | _, CChr a => negb (cls_mem k1 a)
  | _, _ => false
  end.

(** The two sequences ask for disjoint classes at some position. *)
Fixpoint clash (p1 p2 : list cls) : bool :=
  match p1, p2 with
  | k1 :: p1', k2 :: p2' => cls_disjoint k1 k2 || clash p1' p2'
  | _, _ => false
  end.

Definition pattern_prefix (p : string) : list cls :=
  match compile p with
  | Some r => fst (mpre r)
  | None => []
  end.

End Re.

(* ================================================================== *)
(** ** Exceptions and the operating system *)
(* ================================================================== *)

Inductive exn : Type :=
| KeyboardInterrupt
| Exception (msg : string).

Inductive res (A : Type) : Type :=
| Ok (a : A)
| Raise (e : exn).
Arguments Ok {A} a.
Arguments Raise {A} e.

(** [(returncode, stdout, stderr)] *)
Definition result : Type := (Z * string * string)%type.

Inductive signal : Type := SIGTERM | SIGKILL.

(** The list [termios.tcgetattr] returns; it has seven items, so it is
    true in a condition. *)
Record termios_attrs : Type := mkAttrs {
  iflag : Z; oflag : Z; cflag : Z; lflag : Z;
  ispeed : Z; ospeed : Z; cc : list Z
}.

(** The calls a function makes on the operating system, in order. *)
Inductive event : Type :=
| EvChdir (path : string)
| EvGetcwd
| EvSubprocessShell (cmd cwd : string)
| EvOpenpty
| EvPopen (cmd : string) (slave : Z) (cwd : string)
| EvClose (fd : Z)
| EvTcgetattr
| EvSetraw
| EvTcsetattr (a : termios_attrs)
| EvPoll
| EvSelect (with_stdin : bool)
| EvStdinRead
| EvWrite (fd : Z) (data : string)
| EvRead (fd : Z)
| EvPrint (s : string)
| EvWait (timeout : option Z)
| EvKillpg (sig : signal).

(** One pass of the multiplexing loop, after [process.poll()] returned
    [None]: what each call of the pass answers if it is made. *)
Record tick : Type := mkTick {
  t_select : res (bool * bool);   (* (sys.stdin in ready, master_fd in ready) *)
  t_stdin : res string;           (* sys.stdin.read(1) *)
  t_write : res unit;             (* os.write(master_fd, ...) *)
  t_read : res string;            (* os.read(master_fd, 1024) *)
  t_print : res unit              (* print(output, end='', flush=True) *)
}.

(** One pass of the draining loop. *)
Record dtick : Type := mkDtick {
  d_select : res bool;            (* ready is not empty *)
  d_read : res string;
  d_print : res unit
}.

(** What the operating system and the child answer during one PTY
    session.  [s_loop] holds the passes of the multiplexing loop for
    which [poll] returned [None]; [s_poll_end] is the call of [poll] that
    ends the loop unless a pass left it before: [Ok tt] when the child
    has exited.  When [s_drain] is used up, [select] reports nothing to
    read.  [os.getpgid] and [os.killpg] are one call.

    A script is free in what a call raises.  Under the handler that
    [NLShell.__init__] installs for SIGINT, which shows a line and
    returns, that signal raises no [KeyboardInterrupt]; under Python's
    own handler it does, in whatever call it arrives.

    A script describes a session in which every call returns or raises.
    A session in which a call never returns (the child never exits and
    [process.wait()], which has no timeout, blocks for ever) has no
    script: what is proved for all scripts is proved of the sessions
    that come to an end, and says nothing on whether a session ends. *)
Record session_script : Type := mkScript {
  s_openpty : res (Z * Z);        (* (master_fd, slave_fd) *)
  s_popen : res Z;                (* pid *)
  s_close_slave : res unit;
  s_tcgetattr : res unit;
  s_setraw : res unit;
  s_loop : list tick;
  s_poll_end : res unit;
  s_wait : res Z;                 (* process.wait() *)
  s_drain : list dtick;
  s_term : res unit;              (* killpg(.., SIGTERM) *)
  s_wait_term : res Z;            (* process.wait(timeout=2) *)
  s_kill : res unit;              (* killpg(.., SIGKILL) *)
  s_wait_kill : res Z;            (* process.wait(timeout=1) *)
  s_tcsetattr : res unit;
  s_close_master : res unit
}.

(** What [self.console.print] is given: a text with markup, or a panel
    around such a text with a title that has markup too. *)
Inductive box : Type := ROUNDED | MINIMAL.

Inductive renderable : Type :=
| Markup (text : string)
| Panel (body title border_style : string) (box_style : box).

(** The environment of a run.  Paths are resolved against the working
    directory of the process, the first argument of [os_chdir],
    [isfile] and [access_x].  [os_chdir cwd path] answers the directory
    the process is in after the change, [os_getcwd d] what [os.getcwd()]
    answers while the process is in [d], and [console_print] whether the
    console shows what it is given. *)
Record os_env : Type := mkEnv {
  home : string;                                  (* str(Path.home()) *)
  expanduser : string -> string;                  (* os.path.expanduser *)
  os_chdir : string -> string -> res string;
  os_getcwd : string -> res string;
  console_print : renderable -> res unit;         (* self.console.print *)
  isfile : string -> string -> bool;              (* os.path.isfile *)
  access_x : string -> string -> bool;            (* os.access(.., os.X_OK) *)
  subprocess_shell : string -> string -> res result;
    (* create_subprocess_shell(cmd, cwd=..), communicate(), decode *)
  decode : string -> string;                      (* data.decode('utf-8', errors='ignore') *)
  raw_mode : termios_attrs -> termios_attrs;      (* what tty.setraw makes of the attributes *)
  pty_script : string -> string -> session_script
}.

(* ================================================================== *)
(** ** ai_agent.py *)
(* ================================================================== *)

Module Agent.
Import PyStr Re.

Record SafetyRule : Type := mkRule {
  pattern : string;
  allowed : bool;
  reason : string;
  auto_execute : bool
}.

Definition _init_safety_rules : list SafetyRule := [
  (* SAFE - Information gathering commands *)
  mkRule "^ls\s" true "Safe file listing" true;
  mkRule "^find\s.*-type\s+f.*-exec\s+ls\s+-lh" true "Safe file search with size" true;
  mkRule "^du\s+-h.*--max-depth" true "Safe disk usage check" true;
  mkRule "^df\s+-h" true "Safe disk space check" true;
  mkRule "^wc\s+-l" true "Safe line count" true;
  mkRule "^file\s+" true "Safe file type detection" true;
  mkRule "^head\s+-n\s+\d+" true "Safe file preview" true;
  mkRule "^tail\s+-n\s+\d+" true "Safe file preview" true;
  mkRule "^grep\s+.*--color=never" true "Safe text search" true;
  mkRule "^stat\s+" true "Safe file statistics" true;
  mkRule "^pwd$" true "Safe current directory" true;
  mkRule "^whoami$" true "Safe user info" true;
  mkRule "^uname\s+-a" true "Safe system info" true;
  mkRule "^ps\s+aux" true "Safe process listing" true;
  mkRule "^top\s+-b\s+-n1" true "Safe system snapshot" true;
  mkRule "^free\s+-h" true "Safe memory info" true;
  mkRule "^uptime$" true "Safe uptime info" true;
  mkRule "^cat\s+.*\.(txt|log|conf|json|xml|csv)$" true "Safe text file reading" true;
  (* RESTRICTED - Potentially dangerous commands *)
  mkRule "^rm\s+" false "File deletion not allowed" false;
  mkRule "^sudo\s+" false "Elevated privileges not allowed" false;
  mkRule "^chmod\s+" false "Permission changes not allowed" false;
  mkRule "^chown\s+" false "Ownership changes not allowed" false;
  mkRule "^mv\s+" false "File moving not allowed" false;
  mkRule "^cp\s+.*>\s*/" false "System file copying not allowed" false;
  mkRule ">\s*/etc/" false "System directory writing not allowed" false;
  mkRule ">\s*/usr/" false "System directory writing not allowed" false;
  mkRule ">\s*/bin/" false "System directory writing not allowed" false;
  mkRule "^dd\s+" false "Direct disk access not allowed" false;
  mkRule "^fdisk\s+" false "Disk partitioning not allowed" false;
  mkRule "^mkfs\s+" false "Filesystem creation not allowed" false;
  mkRule "^mount\s+" false "Mounting not allowed" false;
  mkRule "^umount\s+" false "Unmounting not allowed" false;
  mkRule "^kill\s+-9" false "Force kill not allowed" false;
  mkRule "^killall\s+" false "Mass process termination not allowed" false;
  mkRule "^shutdown\s+" false "System shutdown not allowed" false;
  mkRule "^reboot\s+" false "System reboot not allowed" false;
  mkRule "^poweroff\s+" false "System poweroff not allowed" false;
  mkRule "^halt\s+" false "System halt not allowed" false;
  mkRule "curl.*\|\s*bash" false "Piped execution not allowed" false;
  mkRule "wget.*\|\s*bash" false "Piped execution not allowed" false
].

Definition safe_patterns : list string := [
  "^echo\s+";
  "^which\s+";
  "^type\s+";
  "^history\s*$";
  "^date\s*$"
].

(** What a rule that matches makes [check_command_safety] return. *)
Definition outcome (rule : SafetyRule) : bool * bool * string :=
  (allowed rule, auto_execute rule && allowed rule, reason rule).

(** [for rule in self.safety_rules: if re.match(..): return ..] *)
Fixpoint first_rule (rules : list SafetyRule) (command_lower : string)
  : option SafetyRule :=
  match rules with
  | [] => None
  | rule :: rules' =>
      if re_match (pattern rule) command_lower then Some rule
      else first_rule rules' command_lower
  end.

(** [check_command_safety], with [self.safety_rules] as an argument. *)
Definition check_command_safety_with (safety_rules : list SafetyRule)
    (command : string) : bool * bool * string :=
  let command_lower := strip (lower command) in
  match first_rule safety_rules command_lower with
  | Some rule => outcome rule
  | None =>
      if existsb (fun pattern => re_match pattern command_lower) safe_patterns
      then (true, true, "Basic safe command")
      else (true, false, "Requires user confirmation")
  end.

Definition outcome_eqb (r1 r2 : SafetyRule) : bool :=
  Bool.eqb (allowed r1) (allowed r2)
  && Bool.eqb (auto_execute r1 && allowed r1) (auto_execute r2 && allowed r2)
  && String.eqb (reason r1) (reason r2).

(** No command matches both rules, or both give the same result. *)
Definition agree (r1 r2 : SafetyRule) : bool :=
  clash (pattern_prefix (pattern r1)) (pattern_prefix (pattern r2))
  || outcome_eqb r1 r2.

Definition all_agree (rules : list SafetyRule) : bool :=
  forallb (fun r1 => forallb (agree r1) rules) rules.

Definition compiles (rule : SafetyRule) : Prop := compile (pattern rule) <> None.

(** The classifier of an [AIAgent], whose table is [_init_safety_rules]. *)
Definition check_command_safety : string -> bool * bool * string :=
  check_command_safety_with _init_safety_rules.

(** The names bound at the top of ai_agent.py (the optional imports
    included, as if all were installed). *)
Definition module_globals : list string := [
  "os"; "json"; "mimetypes"; "subprocess"; "Path";
  "List"; "Dict"; "Any"; "Optional"; "Tuple"; "re"; "dataclass";
  "PyPDF2"; "docx"; "Image"; "pd"; "SafetyRule"; "AIAgent"
].

(** Reading a global name of the module. *)
Definition load_global (name : string) : res unit :=
  if existsb (String.eqb name) module_globals then Ok tt
  else Raise (Exception ("name '" ++ name ++ "' is not defined")).

(** [auto_execute_safe_command]: the result, the working directory of
    the process afterwards and the calls made. *)
Definition auto_execute_safe_command (env : os_env) (cwd : string)
    (command : string) : res result * string * list event :=
  let '(is_safe, auto_exec, why) := check_command_safety command in
  if negb is_safe then
    (Ok (1%Z, "", "Command blocked for safety: " ++ why), cwd, [])
  else if negb auto_exec then
    (Ok (1%Z, "", "Command requires manual confirmation: " ++ why), cwd, [])
  else if startswith (strip command) "cd " then
    let path := strip (drop 3 (strip command)) in
    let path := if is_empty path then home env else path in
    let target := expanduser env path in
    match os_chdir env cwd target with
    | Ok d =>
        match os_getcwd env d with
        | Ok cwd' =>
            (Ok (0%Z, "Changed directory to " ++ cwd', ""), d, [EvChdir target; EvGetcwd])
        | Raise (Exception msg) => (Ok (1%Z, "", msg), d, [EvChdir target; EvGetcwd])
        | Raise KeyboardInterrupt =>
            (Raise KeyboardInterrupt, d, [EvChdir target; EvGetcwd])
        end
    | Raise (Exception msg) => (Ok (1%Z, "", msg), cwd, [EvChdir target])
    | Raise KeyboardInterrupt => (Raise KeyboardInterrupt, cwd, [EvChdir target])
    end
  else
    match load_global "asyncio" with
    | Raise (Exception msg) => (Ok (1%Z, "", msg), cwd, [])
    | Raise KeyboardInterrupt => (Raise KeyboardInterrupt, cwd, [])
    | Ok _ =>
        match subprocess_shell env command cwd with
        | Ok r => (Ok r, cwd, [EvSubprocessShell command cwd])
        | Raise (Exception msg) => (Ok (1%Z, "", msg), cwd, [EvSubprocessShell command cwd])
        | Raise KeyboardInterrupt => (Raise KeyboardInterrupt, cwd, [EvSubprocessShell command cwd])
        end
    end.

(** One entry of [results] in [process_agent_query]. *)
Record agent_result : Type := mkResult {
  ar_command : string;
  ar_success : bool;
  ar_output : string;
  ar_error : string;
  ar_needs_confirmation : bool
}.

(** One pass of [for command in ai_response.suggested_commands:] in
    [process_agent_query]. *)
Definition process_command (env : os_env) (cwd : string) (command : string)
  : res agent_result * string * list event :=
  let '(is_safe, auto_exec, why) := check_command_safety command in
  if auto_exec then
    match auto_execute_safe_command env cwd command with
    | (Ok (returncode, stdout, stderr), cwd', ev) =>
        if (returncode =? 0)%Z
        then (Ok (mkResult command true stdout "" false), cwd', ev)
        else (Ok (mkResult command false "" stderr false), cwd', ev)
    | (Raise e, cwd', ev) => (Raise e, cwd', ev)
    end
  else
    (Ok (mkResult command false "" ("Requires confirmation: " ++ why) true), cwd, []).

End Agent.

(* ================================================================== *)
(** ** nlshell.py *)
(* ================================================================== *)

Module Shell.
Import PyStr.
Local Open Scope list_scope.

(** The working directory of the process, [self.current_dir], the
    attributes of the caller's terminal and the descriptors the process
    holds open. *)
Record shell_state : Type := mkState {
  proc_cwd : string;
  current_dir : string;
  tty_attrs : termios_attrs;
  open_fds : list Z
}.

Definition set_tty (st : shell_state) (a : termios_attrs) : shell_state :=
  mkState (proc_cwd st) (current_dir st) a (open_fds st).

Definition set_fds (st : shell_state) (fds : list Z) : shell_state :=
  mkState (proc_cwd st) (current_dir st) (tty_attrs st) fds.

Definition close_fd (fd : Z) (fds : list Z) : list Z :=
  filter (fun x => negb (Z.eqb x fd)) fds.

(** *** [_is_interactive_command] *)

Definition interactive_patterns (env : os_env) (cwd : string)
  : list (string -> bool) := [
  (* Executable files (common extensions) *)
  fun cmd => existsb (fun ext => startswith (strip cmd) ("./" ++ ext)%string
                                 || endswith (strip cmd) ("." ++ ext)%string)
               ["exe"; "out"; "bin"];
  (* Executable without extension (./program_name) *)
  fun cmd => startswith (strip cmd) "./"
             && negb (existsb (fun ext => contains ext cmd) [".txt"; ".log"; ".conf"]);
  (* Programs that typically require input *)
  fun cmd => existsb (fun prog => contains prog (lower cmd))
               ["python -i"; "node"; "irb"; "ghci"];
  (* Custom compiled programs (no extension, executable) *)
  fun cmd => contains "/" cmd
             && isfile env cwd (first_token (strip cmd))
             && access_x env cwd (first_token (strip cmd))
].

Definition _is_interactive_command (env : os_env) (cwd : string)
    (command : string) : bool :=
  existsb (fun pattern => pattern command) (interactive_patterns env cwd).

(** *** [_execute_interactive_command] *)

(** How the multiplexing loop was left: its condition became false or a
    pass did [break], or an exception left it. *)
Inductive loop_exit : Type :=
| LoopEnd
| LoopRaise (e : exn).

(** [if sys.stdin in ready: try: .. except: break]; [false] is [break]. *)
Definition stdin_pass (master_fd : Z) (t : tick) : bool * list event :=
  match t_stdin t with
  | Raise _ => (false, [EvStdinRead])
  | Ok user_input =>
      if is_empty user_input then (true, [EvStdinRead])
      else match t_write t with
           | Raise _ => (false, [EvStdinRead; EvWrite master_fd user_input])
           | Ok _ => (true, [EvStdinRead; EvWrite master_fd user_input])
           end
  end.

(** [if master_fd in ready: try: .. except: break] *)
Definition master_pass (env : os_env) (master_fd : Z) (t : tick)
    (output_buffer : string) : bool * string * list event :=
  match t_read t with
  | Raise _ => (false, output_buffer, [EvRead master_fd])
  | Ok data =>
      if is_empty data then (true, output_buffer, [EvRead master_fd])
      else
        let output := decode env data in
        match t_print t with
        | Raise _ => (false, (output_buffer ++ output)%string, [EvRead master_fd; EvPrint output])
        | Ok _ => (true, (output_buffer ++ output)%string, [EvRead master_fd; EvPrint output])
        end
  end.

(** [while process.poll() is None: ..] *)
Fixpoint multiplex (env : os_env) (master_fd : Z) (ticks : list tick)
    (poll_end : res unit) (output_buffer : string)
  : loop_exit * string * list event :=
  match ticks with
  | [] =>
      match poll_end with
      | Ok _ => (LoopEnd, output_buffer, [EvPoll])
      | Raise e => (LoopRaise e, output_buffer, [EvPoll])
      end
  | t :: ticks' =>
      match t_select t with
      | Raise e => (LoopRaise e, output_buffer, [EvPoll; EvSelect true])
      | Ok (stdin_ready, master_ready) =>
          let '(go1, ev1) :=
            if stdin_ready then stdin_pass master_fd t else (true, []) in
          if negb go1 then
            (LoopEnd, output_buffer, EvPoll :: EvSelect true :: ev1)
          else
            let '(go2, buf2, ev2) :=
              if master_ready then master_pass env master_fd t output_buffer
              else (true, output_buffer, []) in
            if negb go2 then
              (LoopEnd, buf2, EvPoll :: EvSelect true :: ev1 ++ ev2)
            else
              let '(x, buf3, ev3) := multiplex env master_fd ticks' poll_end buf2 in
              (x, buf3, EvPoll :: EvSelect true :: ev1 ++ ev2 ++ ev3)
      end
  end.

(** [try: while True: .. except: pass], the remaining output. *)
Fixpoint drain (env : os_env) (master_fd : Z) (ds : list dtick)
    (output_buffer : string) : string * list event :=
  match ds with
  | [] => (output_buffer, [EvSelect false])
  | d :: ds' =>
      match d_select d with
      | Raise _ | Ok false => (output_buffer, [EvSelect false])
      | Ok true =>
          match d_read d with
          | Raise _ => (output_buffer, [EvSelect false; EvRead master_fd])
          | Ok data =>
              if is_empty data then (output_buffer, [EvSelect false; EvRead master_fd])
              else
                let output := decode env data in
                match d_print d with
                | Raise _ =>
                    ((output_buffer ++ output)%string,
                     [EvSelect false; EvRead master_fd; EvPrint output])
                | Ok _ =>
                    let '(buf, ev) := drain env master_fd ds' (output_buffer ++ output)%string in
                    (buf, EvSelect false :: EvRead master_fd :: EvPrint output :: ev)
                end
          end
      end
  end.

(** The body of the inner [try]: the loop, [process.wait()] and the
    draining.  [Ok returncode], or the exception that leaves the body. *)
Definition session_body (env : os_env) (master_fd : Z) (sc : session_script)
  : res Z * string * list event :=
  let '(x, buf, ev1) := multiplex env master_fd (s_loop sc) (s_poll_end sc) "" in
  match x with
  | LoopRaise e => (Raise e, buf, ev1)
  | LoopEnd =>
      match s_wait sc with
      | Raise e => (Raise e, buf, ev1 ++ [EvWait None])
      | Ok returncode =>
          let '(buf', ev2) := drain env master_fd (s_drain sc) buf in
          (Ok returncode, buf', ev1 ++ EvWait None :: ev2)
      end
  end.

(** The inner [try] of the handler failed: kill the group. *)
Definition force_kill (sc : session_script) : list event :=
  match s_kill sc with
  | Ok _ => [EvKillpg SIGKILL; EvWait (Some 1%Z)]
  | Raise _ => [EvKillpg SIGKILL]
  end.

(** [except KeyboardInterrupt:], up to [returncode = -1]. *)
Definition on_interrupt (sc : session_script) : list event :=
  match s_term sc with
  | Raise _ => EvKillpg SIGTERM :: force_kill sc
  | Ok _ =>
      match s_wait_term sc with
      | Ok _ => [EvKillpg SIGTERM; EvWait (Some 2%Z)]
      | Raise _ => EvKillpg SIGTERM :: EvWait (Some 2%Z) :: force_kill sc
      end
  end.

(** [finally:] *)
Definition restore (old_settings : option termios_attrs) (master_fd : Z)
    (sc : session_script) (st : shell_state) : shell_state * list event :=
  let '(st1, ev1) :=
    match old_settings with
    | Some a =>
        (match s_tcsetattr sc with Ok _ => set_tty st a | Raise _ => st end,
         [EvTcsetattr a])
    | None => (st, [])
    end in
  (match s_close_master sc with
   | Ok _ => set_fds st1 (close_fd master_fd (open_fds st1))
   | Raise _ => st1
   end,
   ev1 ++ [EvClose master_fd]).

(** [except Exception as e: return 1, "", str(e)] around a function body;
    a [KeyboardInterrupt] passes. *)
Definition except_Exception (e : exn) : res result :=
  match e with
  | Exception msg => Ok (1%Z, "", msg)
  | KeyboardInterrupt => Raise KeyboardInterrupt
  end.

(** [self.console.print(text)] *)
Definition say (env : os_env) (text : string) : res unit :=
  console_print env (Markup text).

(** The three lines that announce a session. *)
Definition announce (env : os_env) (command : string) : res unit :=
  match say env (LF ++ "[bold yellow]🔄 Running interactive program: " ++ command
                 ++ "[/bold yellow]")%string with
  | Raise e => Raise e
  | Ok _ =>
      match say env "[dim]Press Ctrl+C to interrupt the program[/dim]" with
      | Raise e => Raise e
      | Ok _ => say env (repeat_str "=" 50)
      end
  end.

(** The lines behind the [finally]: the rule and the exit code. *)
Definition report (env : os_env) (returncode : Z) : res unit :=
  match say env (LF ++ repeat_str "=" 50)%string with
  | Raise e => Raise e
  | Ok _ =>
      if (returncode =? 0)%Z
      then say env "[bold green]✓ Program completed successfully[/bold green]"
      else say env ("[bold red]✗ Program exited with code " ++ str_int returncode
                    ++ "[/bold red]")%string
  end.

(** The handler at the end of [_execute_interactive_command]:
    [except Exception as e:], whose own [print] can raise. *)
Definition on_exception (env : os_env) (e : exn) : res result :=
  match e with
  | KeyboardInterrupt => Raise KeyboardInterrupt
  | Exception msg =>
      match say env ("[bold red]Error running interactive command: " ++ msg
                     ++ "[/bold red]")%string with
      | Ok _ => Ok (1%Z, "", msg)
      | Raise e' => Raise e'
      end
  end.

(** Entering raw mode: [old_settings], the state and the calls. *)
Definition enter_raw (env : os_env) (sc : session_script) (st : shell_state)
  : option termios_attrs * shell_state * list event :=
  match s_tcgetattr sc with
  | Raise _ => (None, st, [EvTcgetattr])
  | Ok _ =>
      let a := tty_attrs st in
      match s_setraw sc with
      | Raise _ => (Some a, st, [EvTcgetattr; EvSetraw])
      | Ok _ => (Some a, set_tty st (raw_mode env a), [EvTcgetattr; EvSetraw])
      end
  end.

(** From [old_settings = None] to [return returncode, output_buffer, ""]:
    the result or the exception that goes to the handler at the end, the
    state and the calls. *)
Definition session (env : os_env) (master_fd : Z) (sc : session_script)
    (st : shell_state) : res result * shell_state * list event :=
  let '(old_settings, st1, ev_raw) := enter_raw env sc st in
  let '(r, output_buffer, ev_body) := session_body env master_fd sc in
  let '(r', ev_int) :=
    match r with
    | Raise KeyboardInterrupt =>
        (match say env (LF ++ "[yellow]Program interrupted[/yellow]")%string with
         | Ok _ => Ok (-1)%Z
         | Raise e => Raise e
         end, on_interrupt sc)
    | _ => (r, [])
    end in
  let '(st2, ev_fin) := restore old_settings master_fd sc st1 in
  (match r' with
   | Ok returncode =>
       match report env returncode with
       | Ok _ => Ok (returncode, output_buffer, "")
       | Raise e => Raise e
       end
   | Raise e => Raise e
   end,
   st2, ev_raw ++ ev_body ++ ev_int ++ ev_fin).

Definition _execute_interactive_command (env : os_env) (st : shell_state)
    (command : string) : res result * shell_state * list event :=
  match announce env command with
  | Raise e => (on_exception env e, st, [])
  | Ok _ =>
      let sc := pty_script env command (current_dir st) in
      match s_openpty sc with
      | Raise e => (on_exception env e, st, [EvOpenpty])
      | Ok (master_fd, slave_fd) =>
          let st1 := set_fds st (master_fd :: slave_fd :: open_fds st) in
          let ev_popen := EvPopen command slave_fd (current_dir st) in
          match s_popen sc with
          | Raise e => (on_exception env e, st1, [EvOpenpty; ev_popen])
          | Ok _ =>
              match s_close_slave sc with
              | Raise e =>
                  (on_exception env e, st1, [EvOpenpty; ev_popen; EvClose slave_fd])
              | Ok _ =>
                  let st2 := set_fds st1 (close_fd slave_fd (open_fds st1)) in
                  let '(r, st3, ev) := session env master_fd sc st2 in
                  (match r with
                   | Ok v => Ok v
                   | Raise e => on_exception env e
                   end, st3, EvOpenpty :: ev_popen :: EvClose slave_fd :: ev)
              end
          end
      end
  end.

(** *** [_execute_command] *)

Definition is_cd (command : string) : bool := startswith (strip command) "cd ".

Definition cd_target (env : os_env) (command : string) : string :=
  let path := strip (drop 3 (strip command)) in
  let path := if is_empty path then home env else path in
  expanduser env path.

(** [try: .. except Exception as e: return 1, "", str(e)] around a call
    that returns a result, a state and its calls. *)
Definition contain (x : res result * shell_state * list event)
  : res result * shell_state * list event :=
  let '(r, st, ev) := x in
  (match r with
   | Ok v => Ok v
   | Raise e => except_Exception e
   end, st, ev).

Definition _execute_command (env : os_env) (st : shell_state)
    (command : string) : res result * shell_state * list event :=
  if is_cd command then
    let target := cd_target env command in
    match os_chdir env (proc_cwd st) target with
    | Raise e => (except_Exception e, st, [EvChdir target])
    | Ok d =>
        let st1 := mkState d (current_dir st) (tty_attrs st) (open_fds st) in
        match os_getcwd env d with
        | Raise e => (except_Exception e, st1, [EvChdir target; EvGetcwd])
        | Ok cwd' =>
            (Ok (0%Z, ("Changed directory to " ++ cwd')%string, ""),
             mkState d cwd' (tty_attrs st) (open_fds st), [EvChdir target; EvGetcwd])
        end
    end
  else if _is_interactive_command env (proc_cwd st) command then
    contain (_execute_interactive_command env st command)
  else
    let ev := [EvSubprocessShell command (current_dir st)] in
    match subprocess_shell env command (current_dir st) with
    | Ok r => (Ok r, st, ev)
    | Raise e => (except_Exception e, st, ev)
    end.

(** *** [_execute_commands_with_confirmation]

    The orchestrator over any dispatcher, confirmation prompt, error
    analysis and detector of interactive commands, each on a state [W],
    and over any console.  The log has one entry per command run: the
    command and what running it gave. *)
Section Orchestrator.
Variable W : Type.
Variable execute_command : string -> W -> res result * W.
Variable confirm_ask : W -> res bool * W.
Variable handle_command_error : string -> Z -> string -> string -> W -> res unit * W.
Variable is_interactive_command : string -> W -> bool.
Variable console_print : renderable -> res unit.
Variable console_status : string -> res unit.

Definition log : Type := list (string * res Z).

(** [_display_commands(commands)] *)
Definition _display_commands (commands : list string) : res unit :=
  console_print
    (Panel (join LF (map (fun command => "[bold green]$" ++ command ++ "[/bold green]")%string
                         commands))
           "[bold cyan]AI Generated Commands[/bold cyan]" "blue" ROUNDED).

(** What is shown before command [i] of [total] is run: the line that
    names it, and the spinner when the command is not interactive. *)
Definition before_command (auto_confirm : bool) (i total : nat) (command : string)
    (w : W) : res unit :=
  match (if auto_confirm then Ok tt
         else console_print
                (Markup (LF ++ "[dim]Executing " ++ str_nat i ++ "/" ++ str_nat total
                         ++ ":[/dim] [bold]" ++ command ++ "[/bold]")%string)) with
  | Raise e => Raise e
  | Ok _ =>
      if is_interactive_command command w then Ok tt
      else if auto_confirm then Ok tt
      else console_status ("[blue]Running command " ++ str_nat i ++ "...[/blue]")%string
  end.

(** What is shown after a command returned exit code 0. *)
Definition after_success (auto_confirm : bool) (command stdout : string) (w : W)
  : res unit :=
  if negb (is_empty (strip stdout)) && negb (is_interactive_command command w)
     && negb auto_confirm
  then console_print (Panel (strip stdout) "[dim]Output[/dim]" "dim green" MINIMAL)
  else if negb (is_interactive_command command w) && negb auto_confirm
  then console_print (Markup "[dim green]✓ Command completed[/dim green]")
  else Ok tt.

(** What is shown after a command failed, in interactive-confirm mode. *)
Definition after_failure (returncode : Z) (stderr : string) : res unit :=
  match console_print
          (Markup ("[bold red]✗ Command failed (exit code " ++ str_int returncode
                   ++ ")[/bold red]")%string) with
  | Raise e => Raise e
  | Ok _ =>
      if negb (is_empty (strip stderr))
      then console_print (Panel (strip stderr) "[bold red]Error[/bold red]" "red" MINIMAL)
      else Ok tt
  end.

(** [for i, command in enumerate(commands, 1): ..], from command [i] on. *)
Fixpoint run_commands (auto_confirm : bool) (total : nat) (commands : list string)
    (i : nat) (success_count : nat) (w : W) : res nat * W * log :=
  match commands with
  | [] => (Ok success_count, w, [])
  | command :: rest =>
      match before_command auto_confirm i total command w with
      | Raise e => (Raise e, w, [])
      | Ok _ =>
          match execute_command command w with
          | (Raise e, w1) => (Raise e, w1, [(command, Raise e)])
          | (Ok (returncode, stdout, stderr), w1) =>
              let entry := (command, Ok returncode) in
              if (returncode =? 0)%Z then
                match after_success auto_confirm command stdout w1 with
                | Raise e => (Raise e, w1, [entry])
                | Ok _ =>
                    let '(r, w2, l) :=
                      run_commands auto_confirm total rest (S i) (S success_count) w1 in
                    (r, w2, entry :: l)
                end
              else if negb auto_confirm then
                match after_failure returncode stderr with
                | Raise e => (Raise e, w1, [entry])
                | Ok _ =>
                    match handle_command_error command returncode stdout stderr w1 with
                    | (Raise e, w2) => (Raise e, w2, [entry])
                    | (Ok _, w2) => (Ok success_count, w2, [entry])          (* break *)
                    end
                end
              else
                let '(r, w2, l) :=
                  run_commands auto_confirm total rest (S i) success_count w1 in
                (r, w2, entry :: l)
          end
      end
  end.

(** From the end of the loop to [return success_count > 0]. *)
Definition finish (auto_confirm : bool) (total : nat) (x : res nat * W * log)
  : res bool * W * log :=
  let '(r, w, l) := x in
  (match r with
   | Ok success_count =>
       match (if (success_count =? total)%nat && negb auto_confirm
              then console_print
                     (Markup ("[bold green]✓ All " ++ str_nat total
                              ++ " commands executed successfully![/bold green]")%string)
              else Ok tt) with
       | Ok _ => Ok (0 <? success_count)%nat
       | Raise e => Raise e
       end
   | Raise e => Raise e
   end, w, l).

Definition _execute_commands_with_confirmation (commands : list string)
    (auto_confirm : bool) (w : W) : res bool * W * log :=
  match commands with
  | [] =>
      match console_print (Markup "[yellow]No commands to execute.[/yellow]") with
      | Ok _ => (Ok false, w, [])
      | Raise e => (Raise e, w, [])
      end
  | _ :: _ =>
      match _display_commands commands with
      | Raise e => (Raise e, w, [])
      | Ok _ =>
          let total := List.length commands in
          if auto_confirm then
            match console_print
                    (Markup (LF ++ "[dim thinking]Auto-executing exploration commands...[/dim thinking]")%string) with
            | Raise e => (Raise e, w, [])
            | Ok _ => finish true total (run_commands true total commands 1 0 w)
            end
          else
            match confirm_ask w with
            | (Raise e, w1) => (Raise e, w1, [])
            | (Ok false, w1) =>
                match console_print (Markup "[yellow]Commands cancelled.[/yellow]") with
                | Ok _ => (Ok false, w1, [])
                | Raise e => (Raise e, w1, [])
                end
            | (Ok true, w1) => finish false total (run_commands false total commands 1 0 w1)
            end
      end
  end.
End Orchestrator.

End Shell.

(* ================================================================== *)
(** ** Predicates of the statements, and sample environments *)
(* ================================================================== *)

Import PyStr Re Agent Shell.

(** A console that shows everything. *)
Definition console_ok (_ : renderable) : res unit := Ok tt.

(** A console that, as rich does, refuses a text or a panel that holds
    the closing tag [[/x]]. *)
Definition console_rich (r : renderable) : res unit :=
  let refused :=
    match r with
    | Markup text => contains "[/x]" text
    | Panel body title _ _ => contains "[/x]" body || contains "[/x]" title
    end in
  if refused then Raise (Exception "closing tag '[/x]' doesn't match any open tag")
  else Ok tt.

Definition env0 : os_env :=
  mkEnv "/home/u" (fun p => p) (fun _ p => Ok p) (fun d => Ok d) console_ok
        (fun _ _ => false) (fun _ _ => false)
        (fun _ _ => Ok (0%Z, "", "")) (fun d => d) (fun a => a)
        (fun _ _ => mkScript (Raise (Exception "out of pty devices")) (Ok 1%Z) (Ok tt)
                      (Ok tt) (Ok tt) [] (Ok tt) (Ok 0%Z) [] (Ok tt) (Ok 0%Z) (Ok tt)
                      (Ok 0%Z) (Ok tt) (Ok tt)).

(** A table with a deliberately overlapping pair. *)
Definition overlapping_rules : list SafetyRule := [
  mkRule "^ls\s" true "Safe file listing" true;
  mkRule "^ls\s+-la" false "Long listing not allowed" false
].

Definition attrs0 : termios_attrs := mkAttrs 17664 5 191 35387 15 15 [3; 28; 127; 21; 4]%Z.

Definition st0 : shell_state := mkState "/work" "/work" attrs0 [0; 1; 2]%Z.

(** An environment in which only [/work/t] can be entered. *)
Definition env_work : os_env :=
  mkEnv "/home/u" (fun p => p)
        (fun cwd p => if String.eqb p "t" then Ok "/work/t"
                      else Raise (Exception ("[Errno 2] No such file or directory: '" ++ p ++ "'")))
        (fun d => Ok d) console_ok
        (fun _ _ => false) (fun _ _ => false)
        (fun _ _ => Ok (0%Z, "", "")) (fun d => d) (fun a => a)
        (pty_script env0).

(** The third heuristic of the detector alone: the lowered command
    contains the name of a program that typically requires input. *)
Definition names_interactive_program (command : string) : bool :=
  existsb (fun prog => contains prog (lower command)) ["python -i"; "node"; "irb"; "ghci"].

(** In the log, an entry with a non-zero exit code is the last one. *)
Definition halts_at_failure (l : log) : Prop :=
  forall k command returncode,
    nth_error l k = Some (command, Ok returncode) ->
    returncode <> 0%Z -> List.length l = S k.

(** A dispatcher for which the command [false] fails and any other
    succeeds, a user that confirms and an error analysis that suggests
    nothing. *)
Definition execute_sample (command : string) (w : unit) : res result * unit :=
  if String.eqb command "false" then (Ok (1%Z, "", ""), w) else (Ok (0%Z, "", ""), w).

Definition confirm_yes (w : unit) : res bool * unit := (Ok true, w).

(** A detector for which no command is interactive, and a spinner that
    always starts. *)
Definition never_interactive (_ : string) (_ : unit) : bool := false.

Definition status_ok (_ : string) : res unit := Ok tt.

Definition handle_nothing (_ : string) (_ : Z) (_ _ : string) (w : unit) : res unit * unit :=
  (Ok tt, w).

(** [_execute_command] as the dispatcher of the orchestrator, the state
    being that of the shell. *)
Definition dispatch (env : os_env) (command : string) (st : shell_state)
  : res result * shell_state :=
  fst (_execute_command env st command).

(** [_is_interactive_command] as the detector of the orchestrator. *)
Definition detect (env : os_env) (command : string) (st : shell_state) : bool :=
  _is_interactive_command env (proc_cwd st) command.

(** The calls of a PTY session: every call but those of the other two
    paths of the dispatcher. *)
Definition is_session_call (e : event) : bool :=
  match e with
  | EvChdir _ | EvGetcwd | EvSubprocessShell _ _ => false
  | _ => true
  end.


(** The calls of the [finally] block. *)
Definition is_restore (e : event) : bool :=
  match e with
  | EvTcsetattr _ | EvClose _ => true
  | _ => false
  end.

Definition restore_events (old_settings : option termios_attrs) (master_fd : Z)
  : list event :=
  (match old_settings with
   | Some a => [EvTcsetattr a]
   | None => []
   end ++ [EvClose master_fd])%list.

(** [old_settings] when the multiplexing starts. *)
Definition captured (sc : session_script) (st : shell_state) : option termios_attrs :=
  match s_tcgetattr sc with
  | Ok _ => Some (tty_attrs st)
  | Raise _ => None
  end.

(** A terminal whose raw mode clears the local flags. *)
Definition raw_of (a : termios_attrs) : termios_attrs :=
  mkAttrs 0 (oflag a) (cflag a) 0 (ispeed a) (ospeed a) (cc a).

Definition env_pty (sc : session_script) : os_env :=
  mkEnv "/home/u" (fun p => p) (fun _ p => Ok p) (fun d => Ok d) console_rich
        (fun _ _ => false) (fun _ _ => false)
        (fun _ _ => Ok (0%Z, "", "")) (fun d => d) raw_of (fun _ _ => sc).

(** The child prints a prompt; then [select] is interrupted; the child
    ignores SIGTERM for two seconds and is killed. *)
Definition sc_interrupt_in_select : session_script :=
  mkScript (Ok (3, 4)%Z) (Ok 4242%Z) (Ok tt) (Ok tt) (Ok tt)
    [mkTick (Ok (false, true)) (Ok "") (Ok tt) (Ok ">>> ") (Ok tt);
     mkTick (Raise KeyboardInterrupt) (Ok "") (Ok tt) (Ok "") (Ok tt)]
    (Ok tt) (Ok 0%Z) []
    (Ok tt) (Raise (Exception "Command 'python -i' timed out after 2 seconds"))
    (Ok tt) (Ok (-9)%Z)
    (Ok tt) (Ok tt).

(** The user's input is ready and [sys.stdin.read(1)] is interrupted; the
    child exits by itself later with code 0. *)
Definition sc_interrupt_in_read : session_script :=
  mkScript (Ok (3, 4)%Z) (Ok 4242%Z) (Ok tt) (Ok tt) (Ok tt)
    [mkTick (Ok (true, false)) (Raise KeyboardInterrupt) (Ok tt) (Ok "") (Ok tt)]
    (Ok tt) (Ok 0%Z) []
    (Ok tt) (Ok 0%Z) (Ok tt) (Ok 0%Z)
    (Ok tt) (Ok tt).

(* ================================================================== *)
(** ** Further predicates on runs *)
(* ================================================================== *)

(** The texts a run handed to [print], in order, as one text. *)
Fixpoint handed_to_print (tr : list event) : string :=
  match tr with
  | [] => ""
  | EvPrint s :: tr' => s ++ handed_to_print tr'
  | _ :: tr' => handed_to_print tr'
  end.

(** The entry of a command that returned exit code 0. *)
Definition succeeded (entry : string * res Z) : bool :=
  match snd entry with
  | Ok returncode => (returncode =? 0)%Z
  | Raise _ => false
  end.

(* ================================================================== *)
(** ** ai_agent.py: [process_agent_query] *)
(* ================================================================== *)

Module AgentQuery.
Local Open Scope list_scope.

(** The dictionary [process_agent_query] returns, by its ['type']. *)
Inductive agent_reply : Type :=
| Response (message : string)
| AgentResponse (message : string) (executed_commands : list string)
    (results : list agent_result) (interpretation : string)
| ConfirmationNeeded (message : string) (suggested_commands : list string)
    (results : list agent_result).

(** [for command in ai_response.suggested_commands: ..]:
    [(executed_commands, results, final_data)], the working directory
    and the calls. *)
Fixpoint agent_loop (env : os_env) (cwd : string) (commands : list string)
  : res (list string * list agent_result * list string) * string * list event :=
  match commands with
  | [] => (Ok ([], [], []), cwd, [])
  | command :: rest =>
      match process_command env cwd command with
      | (Raise e, cwd1, ev) => (Raise e, cwd1, ev)
      | (Ok entry, cwd1, ev) =>
          match agent_loop env cwd1 rest with
          | (Raise e, cwd2, ev') => (Raise e, cwd2, ev ++ ev')
          | (Ok (executed, results, final_data), cwd2, ev') =>
              (Ok (if ar_needs_confirmation entry then executed else command :: executed,
                   entry :: results,
                   if ar_success entry then ar_output entry :: final_data else final_data),
               cwd2, ev ++ ev')
          end
      end
  end.

(** [process_agent_query], after [process_natural_language] has answered
    [message] and [suggested_commands]; [interpret] is
    [_interpret_command_results], which returns a text also when the
    call of the AI raises. *)
Definition process_agent_query (env : os_env)
    (interpret : string -> list string -> list string -> string)
    (cwd query message : string) (suggested_commands : list string)
  : res agent_reply * string * list event :=
  match suggested_commands with
  | [] => (Ok (Response message), cwd, [])
  | _ :: _ =>
      match agent_loop env cwd suggested_commands with
      | (Raise e, cwd1, ev) => (Raise e, cwd1, ev)
      | (Ok (executed, results, final_data), cwd1, ev) =>
          match final_data with
          | _ :: _ =>
              (Ok (AgentResponse message executed results
                     (interpret query executed final_data)), cwd1, ev)
          | [] => (Ok (ConfirmationNeeded message suggested_commands results), cwd1, ev)
          end
      end
  end.

End AgentQuery.

(* ================================================================== *)
(** ** Further predicates on patterns *)
(* ================================================================== *)

(** What a command that starts with ["cd "] starts with. *)
Definition cd_prefix : list cls := [CChr "c"; CChr "d"; CChr " "].

(** No rule and no secondary pattern can match after such a start. *)
Definition cd_matches_nothing : bool :=
  forallb (fun rule => clash cd_prefix (pattern_prefix (pattern rule))) _init_safety_rules
  && forallb (fun p => clash cd_prefix (pattern_prefix p)) safe_patterns.

(** [r] has no [$]. *)
Fixpoint no_eol (r : regex) : bool :=
  match r with
  | Eol => false
  | Seq r1 r2 | Alt r1 r2 => no_eol r1 && no_eol r2
  | Star r1 => no_eol r1
  | Void | Eps | Cls _ | Bol => true
  end.

Definition pattern_no_eol (p : string) : bool :=
  match compile p with
  | Some r => no_eol r
  | None => false
  end.

(* ================================================================== *)
(** ** nlshell.py: the input of the main loop and the prompt *)
(* ================================================================== *)

Module ShellInput.

(** [c in chars] *)
Fixpoint char_in (c : ascii) (chars : string) : bool :=
  match chars with
  | EmptyString => false
  | String x chars' => Ascii.eqb c x || char_in c chars'
  end.

(** [s.lstrip(chars)] *)
Fixpoint lstrip_chars (chars s : string) : string :=
  match s with
  | EmptyString => EmptyString
  | String c s' => if char_in c chars then lstrip_chars chars s' else s
  end.

(** [s.rstrip(chars)] *)
Fixpoint rstrip_chars (chars s : string) : string :=
  match s with
  | EmptyString => EmptyString
  | String c s' =>
      match rstrip_chars chars s' with
      | EmptyString => if char_in c chars then EmptyString else String c EmptyString
      | r => String c r
      end
  end.

(** [s.strip(chars)] *)
Definition strip_chars (chars s : string) : string :=
  rstrip_chars chars (lstrip_chars chars s).

(** [s[:-n]], for [n] above 0 *)
Definition drop_last (n : nat) (s : string) : string :=
  substring 0 (String.length s - n) s.

(** [s[-n:]], for [n] above 0 *)
Definition take_last (n : nat) (s : string) : string :=
  drop (String.length s - n) s.

Definition _is_direct_command (user_input : string) : bool :=
  startswith user_input "!" || endswith user_input "!" || startswith user_input "! ".

Definition _is_question (user_input : string) : bool :=
  endswith user_input "-q".

Definition _clean_direct_command (user_input : string) : string :=
  strip (strip_chars "! " user_input).

Definition _clean_question (user_input : string) : string :=
  strip (drop_last 2 user_input).

(** [is_agent_query] of [_handle_agent_query] *)
Definition agent_suffix_pattern : string := ".*-a$".

Definition is_agent_query (user_input : string) : bool :=
  re_match agent_suffix_pattern (lower (strip user_input)).

(** Where one pass of the loop of [run] takes the input.  [AgentQuery]
    is [_handle_agent_query] returning [True], with the [query] it
    passes on; the two last routes start with [_handle_file_analysis],
    which is not modelled. *)
Inductive route : Type :=
| Skip
| Exit
| ShowThinking
| SaveMemory
| ViewMemory
| Direct (command : string)
| AgentQuery (query : string)
| QuestionOrFile
| NaturalOrFile.

Definition route_input (user_input : string) : route :=
  if is_empty (strip user_input) then Skip
  else if existsb (String.eqb (lower user_input)) ["exit"; "quit"; "bye"] then Exit
  else if String.eqb user_input "show_thinking" then ShowThinking
  else if startswith user_input "save_mem" then SaveMemory
  else if existsb (String.eqb (lower user_input)) ["show mem"; "mem"; "show memory"]
  then ViewMemory
  else if _is_direct_command user_input then Direct (_clean_direct_command user_input)
  else if _is_question user_input then
    if is_agent_query user_input then AgentQuery (strip (drop_last 2 user_input))
    else QuestionOrFile
  else NaturalOrFile.

(** The branch of the loop of [run] for a direct command, from the
    line that names the command to what is shown of its result:
    whether the branch is left by an exception, the state and the
    calls. *)
Definition run_direct_command (env : os_env) (st : shell_state) (user_input : string)
  : res unit * shell_state * list event :=
  let command := _clean_direct_command user_input in
  match say env ("[dim]Executing:[/dim] [bold]" ++ command ++ "[/bold]") with
  | Raise e => (Raise e, st, [])
  | Ok _ =>
      let '(r, st', ev) := _execute_command env st command in
      (match r with
       | Raise e => Raise e
       | Ok (returncode, stdout, stderr) =>
           if (returncode =? 0)%Z then
             if negb (is_empty (strip stdout))
                && negb (_is_interactive_command env (proc_cwd st') command)
             then say env stdout
             else if negb (_is_interactive_command env (proc_cwd st') command)
             then say env "[dim green]✓ Command completed[/dim green]"
             else Ok tt
           else
             match say env ("[bold red]Command failed (exit code "
                            ++ str_int returncode ++ ")[/bold red]") with
             | Raise e => Raise e
             | Ok _ =>
                 if negb (is_empty (strip stderr))
                 then say env ("[red]" ++ stderr ++ "[/red]")
                 else Ok tt
             end
       end, st', ev)
  end.

(** [s.split('/')[-1]] *)
Fixpoint last_segment (s : string) : string :=
  match s with
  | EmptyString => EmptyString
  | String c s' =>
      if contains "/" s' then last_segment s'
      else if Ascii.eqb c "/" then s'
      else s
  end.

(** [s.replace(old, new, 1)] *)
Fixpoint replace_first (old new s : string) : string :=
  if String.prefix old s then new ++ drop (String.length old) s
  else match s with
       | EmptyString => EmptyString
       | String c s' => String c (replace_first old new s')
       end.

(** [env_name] of [_get_shell_prompt]; [environ] is [os.environ.get]. *)
Definition env_name (environ : string -> option string) : string :=
  match environ "CONDA_DEFAULT_ENV" with
  | Some v => v
  | None =>
      match environ "VIRTUAL_ENV" with
      | Some (String c v) => last_segment (String c v)
      | _ => "base"
      end
  end.

(** [current] at the end of [_get_shell_prompt] *)
Definition prompt_directory (home current_dir : string) : string :=
  let current :=
    if startswith current_dir home then replace_first home "~" current_dir
    else current_dir in
  if (30 <? String.length current)%nat then "..." ++ take_last 27 current
  else current.

Definition _get_shell_prompt (environ : string -> option string)
    (home current_dir : string) : string :=
  "(" ++ env_name environ ++ ") ai_terminal " ++ prompt_directory home current_dir ++ " % ".

End ShellInput.

(** The last character of a string. *)
Fixpoint last_char (s : string) : option ascii :=
  match s with
  | EmptyString => None
  | String c EmptyString => Some c
  | String _ s' => last_char s'
  end.

(* ================================================================== *)
(** ** ai_core.py *)
(* ================================================================== *)

Module AICore.
Local Open Scope list_scope.

(** *** [_requires_thinking] *)

Definition thinking_indicators : list string := [
  (* File operations with ambiguous references *)
  "this file"; "that file"; "the file"; "these files"; "those files";
  "the folder"; "this folder"; "that folder"; "this directory";
  (* Analysis requests *)
  "what is in"; "what's in"; "show me"; "tell me about"; "analyze";
  "summarize"; "summary of"; "what does"; "how big"; "how many";
  (* Ambiguous file references *)
  "matrix file"; "config file"; "log file"; "data file"; "script file";
  "python file"; "text file"; "json file"; "csv file";
  (* Delete/modify with ambiguous references *)
  "delete this"; "remove this"; "delete the"; "remove the";
  "edit this"; "modify this"; "change this";
  (* Search and exploration *)
  "find"; "search for"; "look for"; "where is"; "which file";
  (* Comparative operations *)
  "largest file"; "smallest file"; "newest file"; "oldest file";
  "most recent"; "latest"; "biggest"; "smallest";
  (* Status and inspection *)
  "what's taking up space"; "disk usage"; "memory usage";
  "running processes"; "active connections"; "system status"
].

Definition _requires_thinking (user_input : string) : bool :=
  let user_lower := lower user_input in
  existsb (fun indicator => contains indicator user_lower) thinking_indicators.

(** *** [_execute_thinking_command] and the exploration of
    [_think_and_explore] *)

(** [subprocess_shell] answers for the spawn, [communicate()] and the
    decoding of the two streams; a stream that cannot be decoded is one
    of its [Exception]s. *)

Definition _execute_thinking_command (env : os_env) (command current_dir : string)
  : res result * list event :=
  if startswith (strip command) "cd " then
    (Ok (1%Z, "", "Cannot change directory during thinking phase"%string), [])
  else
    let ev := [EvSubprocessShell command current_dir] in
    match subprocess_shell env command current_dir with
    | Ok r => (Ok r, ev)
    | Raise e => (except_Exception e, ev)
    end.

Record ThinkingStep : Type := mkStep {
  ts_command : string;
  ts_output : string;
  ts_reasoning : string;
  ts_next_action : string
}.

(** One dictionary of [exploration_results]. *)
Record exploration_result : Type := mkExploration {
  er_command : string;
  er_returncode : Z;
  er_stdout : string;
  er_stderr : string
}.

(** [for cmd in ai_response.exploration_commands: ..]: the results, or
    the exception that ends the loop, the steps appended to
    [self.thinking_steps] and the calls. *)
Fixpoint explore (env : os_env) (user_input current_dir : string)
    (commands : list string)
  : res (list exploration_result) * list ThinkingStep * list event :=
  match commands with
  | [] => (Ok [], [], [])
  | cmd :: rest =>
      match _execute_thinking_command env cmd current_dir with
      | (Raise e, ev) => (Raise e, [], ev)
      | (Ok (returncode, stdout, stderr), ev) =>
          let step :=
            mkStep cmd (if (returncode =? 0)%Z then stdout else stderr)
              ("Exploring to understand user request: " ++ user_input)%string
              "Continue exploration or provide final answer" in
          let '(r, steps, ev') := explore env user_input current_dir rest in
          (match r with
           | Ok results => Ok (mkExploration cmd returncode stdout stderr :: results)
           | Raise e => Raise e
           end, step :: steps, ev ++ ev')
      end
  end.

(** *** [add_to_temp_memory] *)

Definition add_to_temp_memory {A : Type} (temp_memory : list A) (interaction : A)
  : list A :=
  let temp_memory := temp_memory ++ [interaction] in
  if (20 <? List.length temp_memory)%nat
  then skipn (List.length temp_memory - 20) temp_memory
  else temp_memory.

(** *** [_parse_ai_response] *)

(** [s.find(sub)]; [None] is -1. *)
Fixpoint find (sub s : string) : option nat :=
  if String.prefix sub s then Some 0
  else match s with
       | EmptyString => None
       | String _ s' => option_map S (find sub s')
       end.

(** [s.find(sub, start)] *)
Definition find_from (sub s : string) (start : nat) : option nat :=
  option_map (fun i => start + i) (find sub (drop start s)).

(** [s[a:b]] for [b] the result of a [find] from [a] on. *)
Definition slice (s : string) (a : nat) (b : option nat) : string :=
  match b with
  | Some j => substring a (j - a) s
  | None => substring a (String.length s - 1 - a) s
  end.

(** What [json.loads] returns; a number is kept as it is written. *)
#[warnings="-register-all"] Inductive json : Type :=
| JNull
| JBool (b : bool)
| JNumber (lexeme : string)
| JString (s : string)
| JArray (items : list json)
| JObject (members : list (string * json)).

(** [data.get(key, default)] on a dictionary, given by its items *)
Fixpoint dict_get (members : list (string * json)) (key : string) (default : json) : json :=
  match members with
  | [] => default
  | (k, v) :: members' => if String.eqb k key then v else dict_get members' key default
  end.

Record AIResponse : Type := mkAIResponse {
  message : json;
  suggested_commands : json;
  needs_clarification : json;
  confidence : json;
  thinking_mode : json;
  exploration_commands : json
}.

(** [__post_init__] *)
Definition none_to_empty (v : json) : json :=
  match v with
  | JNull => JArray []
  | _ => v
  end.

(** [AIResponse(..)], with its [__post_init__] *)
Definition new_AIResponse (message commands needs conf thinking exploration : json)
  : AIResponse :=
  mkAIResponse message (none_to_empty commands) needs conf thinking
    (none_to_empty exploration).

(** [AIResponse(message=data.get('message', ''), ..)]; [None] when [data]
    is no dictionary and [data.get] raises. *)
Definition response_of (data : json) : option AIResponse :=
  match data with
  | JObject members =>
      Some (new_AIResponse
              (dict_get members "message" (JString ""))
              (dict_get members "commands" (JArray []))
              (dict_get members "needs_clarification" (JBool false))
              (dict_get members "confidence" (JNumber "1.0"))
              (dict_get members "thinking_mode" (JBool false))
              (dict_get members "exploration_commands" (JArray [])))
  | _ => None
  end.

Definition plain_response (message : string) : AIResponse :=
  new_AIResponse (JString message) (JArray []) (JBool false) (JNumber "1.0")
    (JBool false) (JArray []).

Definition fence : string := "```json".

(** [json_str] of the branch for a fenced block *)
Definition fenced_json (response : string) : string :=
  let json_start :=
    match find fence response with
    | Some i => i + 7
    | None => 6
    end in
  let json_end := find_from "```" response json_start in
  strip (slice response json_start json_end).

(** [_parse_ai_response]; [json_loads] is [json.loads], [None] when it
    raises. *)
Definition _parse_ai_response (json_loads : string -> option json)
    (response : string) : AIResponse :=
  if contains fence response then
    match json_loads (fenced_json response) with
    | Some data =>
        match response_of data with
        | Some r => r
        | None => plain_response "Sorry, I couldn't parse that response properly."
        end
    | None => plain_response "Sorry, I couldn't parse that response properly."
    end
  else
    match json_loads response with
    | Some data =>
        match response_of data with
        | Some r => r
        | None => plain_response response
        end
    | None => plain_response response
    end.

End AICore.

(** A [json.loads] that reads the empty dictionary and nothing else. *)
Definition json_loads_braces (s : string) : option AICore.json :=
  if String.eqb s "{}" then Some (AICore.JObject []) else None.

(* ================================================================== *)
(** ** Facts about strings *)
(* ================================================================== *)

Module PyStrFacts.
Import PyStr.

Lemma append_assoc (a b c : string) : (a ++ b) ++ c = a ++ (b ++ c).
Proof. induction a as [|x a IH]; simpl; [reflexivity | now rewrite IH]. Qed.

Lemma append_empty_r (a : string) : a ++ "" = a.
Proof. induction a as [|x a IH]; simpl; [reflexivity | now rewrite IH]. Qed.

Lemma append_is_empty (a b : string) : a ++ b = "" -> a = "" /\ b = "".
Proof. destruct a; simpl; [auto | discriminate]. Qed.

Lemma length_append (a b : string) :
  String.length (a ++ b) = String.length a + String.length b.
Proof. induction a as [|x a IH]; simpl; [reflexivity | now rewrite IH]. Qed.

Lemma is_space_lower_char (c : ascii) : is_space (lower_char c) = is_space c.
Proof. destruct c as [[] [] [] [] [] [] [] []]; reflexivity. Qed.

Lemma lower_char_idem (c : ascii) : lower_char (lower_char c) = lower_char c.
Proof. destruct c as [[] [] [] [] [] [] [] []]; reflexivity. Qed.

Lemma lower_idem (s : string) : lower (lower s) = lower s.
Proof.
  induction s as [|c s IH]; simpl; [reflexivity|].
  now rewrite lower_char_idem, IH.
Qed.

Lemma lstrip_lower (s : string) : lstrip (lower s) = lower (lstrip s).
Proof.
  induction s as [|c s IH]; simpl; [reflexivity|].
  rewrite is_space_lower_char. destruct (is_space c); [exact IH | reflexivity].
Qed.

Lemma rstrip_lower (s : string) : rstrip (lower s) = lower (rstrip s).
Proof.
  induction s as [|c s IH]; simpl; [reflexivity|].
  rewrite IH, is_space_lower_char.
  destruct (rstrip s); simpl; [destruct (is_space c)|]; reflexivity.
Qed.

(** Lowering and trimming commute. *)
Lemma strip_lower (s : string) : strip (lower s) = lower (strip s).
Proof. unfold strip. now rewrite lstrip_lower, rstrip_lower. Qed.

Lemma lstrip_no_leading_space (s : string) : no_leading_space (lstrip s).
Proof.
  induction s as [|c s IH]; simpl; [exact I|].
  destruct (is_space c) eqn:E; [exact IH | exact E].
Qed.

Lemma rstrip_no_leading_space (s : string) :
  no_leading_space s -> no_leading_space (rstrip s).
Proof.
  destruct s as [|c s]; simpl; [auto|]. intros H.
  destruct (rstrip s); [rewrite H|]; exact H.
Qed.

Lemma lstrip_fixed (s : string) : no_leading_space s -> lstrip s = s.
Proof. destruct s as [|c s]; simpl; [auto | now intros ->]. Qed.

Lemma rstrip_idem (s : string) : rstrip (rstrip s) = rstrip s.
Proof.
  induction s as [|c s IH]; simpl; [reflexivity|].
  destruct (rstrip s) as [|d r] eqn:E.
  - destruct (is_space c) eqn:Ec; simpl; [reflexivity | now rewrite Ec].
  - change (rstrip (String c (String d r)))
      with (match rstrip (String d r) with
            | EmptyString => if is_space c then EmptyString else String c EmptyString
            | String a b => String c (String a b)
            end).
    now rewrite IH.
Qed.

Lemma strip_idem (s : string) : strip (strip s) = strip s.
Proof.
  unfold strip.
  rewrite (lstrip_fixed (rstrip (lstrip s))).
  - apply rstrip_idem.
  - apply rstrip_no_leading_space, lstrip_no_leading_space.
Qed.

(** Normalising a normalised command changes nothing. *)
Lemma normalize_idem (s : string) : strip (lower (strip (lower s))) = strip (lower s).
Proof. now rewrite <- strip_lower, lower_idem, strip_idem. Qed.

(** A prefix, as [String.prefix] computes it, is a left factor. *)
Lemma prefix_split (p s : string) :
  String.prefix p s = true <-> exists t, s = p ++ t.
Proof.
  revert s; induction p as [|c p IH]; intros s.
  - destruct s; simpl; split; eauto.
  - destruct s as [|d s]; simpl.
    + split; [discriminate | intros [t H]; discriminate].
    + destruct (ascii_dec c d) as [->|Hn].
      * rewrite IH. split; intros [t H]; exists t; [now subst | now inversion H].
      * split; [discriminate | intros [t H]; congruence].
Qed.

Lemma rstrip_empty (s : string) : rstrip s = "" <-> all_space s = true.
Proof.
  induction s as [|c s IH]; simpl; [tauto|].
  destruct (rstrip s) as [|d r].
  - destruct (is_space c); simpl.
    + split; intros _; [now apply IH | reflexivity].
    + split; discriminate.
  - split; [discriminate|]. intros H. apply andb_true_iff in H as [_ H].
    apply IH in H. discriminate.
Qed.

Lemma all_space_lstrip (s : string) : all_space (lstrip s) = true -> all_space s = true.
Proof.
  induction s as [|c s IH]; simpl; [auto|].
  destruct (is_space c) eqn:E; simpl; [exact IH|].
  now rewrite E.
Qed.

Lemma strip_empty (s : string) : strip s = "" -> rstrip s = "".
Proof.
  unfold strip. intros H. apply rstrip_empty. apply all_space_lstrip.
  now apply rstrip_empty.
Qed.

(** After ["cd "] a stripped command has an argument: the target of a
    directory change is never empty. *)
Lemma cd_argument_not_empty (command : string) :
  startswith (strip command) "cd " = true ->
  is_empty (strip (drop 3 (strip command))) = false.
Proof.
  unfold startswith. intros H. apply prefix_split in H as [t Ht].
  destruct (strip (drop 3 (strip command))) eqn:E; [|reflexivity]. exfalso.
  rewrite Ht in E. simpl in E. apply strip_empty in E.
  pose proof (rstrip_idem (lstrip command)) as R. fold (strip command) in R.
  rewrite Ht in R. simpl in R. rewrite E in R. simpl in R. discriminate.
Qed.

End PyStrFacts.

(* ================================================================== *)
(** ** The matcher computes the meaning of patterns *)
(* ================================================================== *)

Module ReFacts.
Import PyStr Re PyStrFacts.

Lemma nu_sound r : forall b post, nu b post r = true -> matches b r "" post.
Proof.
  induction r; simpl; intros b post H; try discriminate.
  - constructor.
  - subst; constructor.
  - now constructor.
  - apply andb_true_iff in H as [H1 H2].
    change "" with ("" ++ ""). constructor.
    + now apply IHr1.
    + simpl. rewrite andb_true_r. now apply IHr2.
  - apply orb_true_iff in H as [H|H]; [apply MAltL | apply MAltR]; auto.
  - constructor.
Qed.

Lemma nu_complete b r mid post :
  matches b r mid post -> mid = "" -> nu b post r = true.
Proof.
  induction 1; simpl; intros E; try discriminate; auto.
  - apply append_is_empty in E as [-> ->]. simpl in *.
    rewrite andb_true_r in IHmatches2. now rewrite IHmatches1, IHmatches2.
  - now rewrite IHmatches.
  - rewrite IHmatches by assumption. apply orb_true_r.
Qed.

Lemma der_sound r : forall b c m post,
  matches false (der b c (m ++ post) r) m post -> matches b r (String c m) post.
Proof.
  induction r; simpl; intros b c m post H; try (now inversion H).
  - destruct (cls_mem k c) eqn:E; inversion H; subst. now constructor.
  - assert (D : forall m1 m2, m = m1 ++ m2 ->
              matches false (der b c (m ++ post) r1) m1 (m2 ++ post) ->
              matches false r2 m2 post ->
              matches b (Seq r1 r2) (String c m) post).
    { intros m1 m2 -> H1 H2. rewrite append_assoc in H1.
      apply IHr1 in H1. change (String c (m1 ++ m2)) with (String c m1 ++ m2).
      constructor; [assumption|]. simpl. now rewrite andb_false_r. }
    destruct (nu b (String c (m ++ post)) r1) eqn:N.
    + inversion H; subst.
      * match goal with X : matches _ (Seq _ _) _ _ |- _ => inversion X; subst end.
        eapply D; eauto.
      * change (String c m) with ("" ++ String c m). constructor.
        -- apply nu_sound. exact N.
        -- simpl. rewrite andb_true_r. now apply IHr2.
    + inversion H; subst. eapply D; eauto.
  - inversion H; subst; [apply MAltL | apply MAltR]; auto.
  - inversion H; subst.
    match goal with X : matches _ (der _ _ _ _) _ _ |- _ => rename X into H1 end.
    rewrite append_assoc in H1. apply IHr in H1.
    match goal with |- matches _ _ (String c (?a ++ ?b)) _ =>
      change (String c (a ++ b)) with (String c a ++ b) end.
    constructor; [assumption|]. simpl. now rewrite andb_false_r.
Qed.

Lemma der_complete b r mid post :
  matches b r mid post ->
  forall c m, mid = String c m -> matches false (der b c (m ++ post) r) m post.
Proof.
  induction 1; intros c0 m E; try discriminate.
  - inversion E; subst. simpl. rewrite H. constructor.
  - simpl. destruct m1 as [|x m1]; simpl in E.
    + subst m2. simpl in *. rewrite andb_true_r in *.
      rewrite (nu_complete _ _ _ _ H eq_refl).
      apply MAltR. now apply IHmatches2.
    + inversion E; subst. simpl in *. rewrite andb_false_r in *.
      assert (D : matches false (Seq (der b c0 ((m1 ++ m2) ++ post) r1) r2) (m1 ++ m2) post).
      { constructor; [|assumption]. rewrite append_assoc. now apply IHmatches1. }
      destruct (nu b _ r1); [now apply MAltL | assumption].
  - simpl. apply MAltL. auto.
  - simpl. apply MAltR. auto.
  - destruct m1 as [|x m1]; simpl in E.
    + subst m2. simpl in *. rewrite andb_true_r in *. now apply IHmatches2.
    + inversion E; subst. simpl in *. rewrite andb_false_r in *.
      constructor; [|assumption]. rewrite append_assoc. now apply IHmatches1.
Qed.

Lemma match_here_sound s : forall b r,
  match_here b r s = true ->
  exists mid post, s = mid ++ post /\ matches b r mid post.
Proof.
  induction s as [|c s IH]; simpl; intros b r H.
  - rewrite orb_false_r in H. exists "", "". split; [reflexivity | now apply nu_sound].
  - apply orb_true_iff in H as [H|H].
    + exists "", (String c s). split; [reflexivity | now apply nu_sound].
    + apply IH in H as (mid & post & E & H). subst s.
      exists (String c mid), post. split; [reflexivity | now apply der_sound].
Qed.

Lemma match_here_complete mid : forall b r post,
  matches b r mid post -> match_here b r (mid ++ post) = true.
Proof.
  induction mid as [|c mid IH]; intros b r post H.
  - simpl. apply nu_complete in H; [|reflexivity].
    destruct post; simpl; rewrite H; reflexivity.
  - simpl. apply orb_true_iff. right. apply IH. now apply der_complete with (mid := String c mid).
Qed.

(** The matcher decides [matches_prefix]. *)
Theorem match_here_spec (r : regex) (s : string) :
  match_here true r s = true <-> matches_prefix r s.
Proof.
  split.
  - apply match_here_sound.
  - intros (mid & post & -> & H). now apply match_here_complete.
Qed.

Corollary re_match_spec (p s : string) :
  re_match p s = true <-> exists r, compile p = Some r /\ matches_prefix r s.
Proof.
  unfold re_match. destruct (compile p) as [r|].
  - rewrite match_here_spec. split; [eauto | now intros (r' & [= <-] & H)].
  - split; [discriminate | now intros (r' & [=] & _)].
Qed.

(** *** Mandatory prefixes *)

Lemma fits_app p1 : forall p2 m1 m2,
  fits p1 m1 = true -> String.length m1 = List.length p1 ->
  fits p2 m2 = true -> fits (p1 ++ p2) (m1 ++ m2) = true.
Proof.
  induction p1 as [|k p1 IH]; intros p2 m1 m2 F1 L F2.
  - destruct m1; [assumption | discriminate].
  - destruct m1 as [|c m1]; [discriminate|]. simpl in *.
    apply andb_true_iff in F1 as [-> F1]. simpl. apply IH; auto.
Qed.

Lemma fits_more p : forall m1 m2, fits p m1 = true -> fits p (m1 ++ m2) = true.
Proof.
  induction p as [|k p IH]; intros m1 m2 F; [reflexivity|].
  destruct m1 as [|c m1]; [discriminate|]. simpl in *.
  apply andb_true_iff in F as [-> F]. simpl. now apply IH.
Qed.

Lemma mpre_spec b r mid post :
  matches b r mid post ->
  fits (fst (mpre r)) mid = true /\
  (snd (mpre r) = true -> String.length mid = List.length (fst (mpre r))).
Proof.
  induction 1; simpl; try (split; [reflexivity | (reflexivity || discriminate)]).
  - rewrite H. split; reflexivity.
  - destruct IHmatches1 as [F1 L1], IHmatches2 as [F2 L2].
    destruct (mpre r1) as [p1 e1], (mpre r2) as [p2 e2]; simpl in *.
    destruct e1; simpl.
    + split.
      * apply fits_app; auto.
      * intros ->. rewrite length_append, length_app. auto.
    + split; [now apply fits_more | discriminate].
Qed.

Lemma cls_disjoint_spec k1 k2 c :
  cls_disjoint k1 k2 = true -> cls_mem k1 c = true -> cls_mem k2 c = true -> False.
Proof.
  destruct k1, k2; simpl; intros D H1 H2; try discriminate;
    repeat match goal with
           | H : Ascii.eqb _ _ = true |- _ => apply Ascii.eqb_eq in H; subst
           end;
    try (rewrite H1 in D; discriminate); try (rewrite H2 in D; discriminate).
  rewrite Ascii.eqb_refl in D. discriminate.
Qed.

Lemma clash_spec p1 : forall p2 s,
  clash p1 p2 = true -> fits p1 s = true -> fits p2 s = true -> False.
Proof.
  induction p1 as [|k1 p1 IH]; intros [|k2 p2] s C F1 F2; try discriminate.
  destruct s as [|c s]; [discriminate|]. simpl in *.
  apply andb_true_iff in F1 as [M1 F1]. apply andb_true_iff in F2 as [M2 F2].
  apply orb_true_iff in C as [C|C].
  - eapply cls_disjoint_spec; eauto.
  - eapply IH; eauto.
Qed.

Lemma re_match_fits (p s : string) :
  re_match p s = true -> fits (pattern_prefix p) s = true.
Proof.
  intros H. apply re_match_spec in H as (r & C & mid & post & -> & H).
  unfold pattern_prefix. rewrite C. apply fits_more. now apply mpre_spec in H.
Qed.

(** Patterns whose mandatory prefixes clash match no common subject. *)
Lemma clash_no_common_match (p1 p2 s : string) :
  clash (pattern_prefix p1) (pattern_prefix p2) = true ->
  re_match p1 s = true -> re_match p2 s = true -> False.
Proof.
  intros C H1 H2. eapply clash_spec; eauto using re_match_fits.
Qed.

(** The matcher on patterns of the table. *)
Example re_match_examples :
  re_match "^ls\s" "ls -la" = true
  /\ re_match "^ls\s" "ls" = false
  /\ re_match "^pwd$" "pwd" = true
  /\ re_match "^pwd$" "pwd -P" = false
  /\ re_match "^head\s+-n\s+\d+" "head  -n 20 notes.txt" = true
  /\ re_match "^cat\s+.*\.(txt|log|conf|json|xml|csv)$" "cat /var/log/syslog.log" = true
  /\ re_match "^cat\s+.*\.(txt|log|conf|json|xml|csv)$" "cat notes.txt.bak" = false
  /\ re_match ">\s*/etc/" "echo x > /etc/passwd" = false
  /\ re_match "curl.*\|\s*bash" "curl -s http://x/i.sh | bash" = true
  /\ re_match "^kill\s+-9" "killall -9 x" = false.
Proof. vm_compute. repeat split. Qed.

End ReFacts.

(* ================================================================== *)
(** ** The safety classifier *)
(* ================================================================== *)

Module AgentFacts.
Import PyStr Re Agent PyStrFacts ReFacts.

Lemma first_rule_some rules s r :
  first_rule rules s = Some r -> In r rules /\ re_match (pattern r) s = true.
Proof.
  induction rules as [|a rules IH]; simpl; [discriminate|].
  destruct (re_match (pattern a) s) eqn:E.
  - intros [= <-]. auto.
  - intros H. apply IH in H. tauto.
Qed.

Lemma first_rule_none rules s :
  first_rule rules s = None <->
  forall r, In r rules -> re_match (pattern r) s = false.
Proof.
  induction rules as [|a rules IH]; simpl.
  - split; [intros _ r [] | reflexivity].
  - destruct (re_match (pattern a) s) eqn:E.
    + split; [discriminate | intros H; specialize (H a (or_introl eq_refl)); congruence].
    + rewrite IH. split.
      * intros H r [<-|Hr]; auto.
      * intros H r Hr. apply H. now right.
Qed.

(** The first rule that matches is returned, and nothing before it
    matches. *)
Lemma first_rule_first rules s : forall i r,
  nth_error rules i = Some r ->
  re_match (pattern r) s = true ->
  exists h rh, h <= i /\ nth_error rules h = Some rh /\
    re_match (pattern rh) s = true /\
    (forall g rg, g < h -> nth_error rules g = Some rg -> re_match (pattern rg) s = false) /\
    first_rule rules s = Some rh.
Proof.
  induction rules as [|a rules IH]; intros i r Hi Hm.
  - destruct i; discriminate.
  - simpl. destruct (re_match (pattern a) s) eqn:E.
    + exists 0, a. repeat split; auto; [lia | intros g rg Hg; lia].
    + destruct i as [|i]; simpl in Hi.
      * inversion Hi; subst. congruence.
      * destruct (IH i r Hi Hm) as (h & rh & Hle & Hh & Hmh & Hbefore & Hf).
        exists (S h), rh. repeat split; auto; [lia|].
        intros [|g] rg Hg Hn; simpl in Hn; [now inversion Hn; subst|].
        apply (Hbefore g); [lia | assumption].
Qed.

Lemma first_rule_at rules s i r :
  nth_error rules i = Some r ->
  re_match (pattern r) s = true ->
  (forall h rh, h < i -> nth_error rules h = Some rh -> re_match (pattern rh) s = false) ->
  first_rule rules s = Some r.
Proof.
  intros Hi Hm Hbefore.
  destruct (first_rule_first rules s i r Hi Hm) as (h & rh & Hle & Hh & Hmh & _ & Hf).
  destruct (Nat.eq_dec h i) as [->|Hne].
  - congruence.
  - rewrite (Hbefore h rh) in Hmh; [discriminate | lia | assumption].
Qed.

Lemma outcome_eqb_eq r1 r2 : outcome_eqb r1 r2 = true -> outcome r1 = outcome r2.
Proof.
  unfold outcome_eqb, outcome. intros H.
  apply andb_true_iff in H as [H H3]. apply andb_true_iff in H as [H1 H2].
  apply Bool.eqb_prop in H1, H2. apply String.eqb_eq in H3. congruence.
Qed.

Lemma agree_spec r1 r2 s :
  agree r1 r2 = true ->
  re_match (pattern r1) s = true -> re_match (pattern r2) s = true ->
  outcome r1 = outcome r2.
Proof.
  unfold agree. intros H M1 M2. apply orb_true_iff in H as [H|H].
  - exfalso. eapply clash_no_common_match; eauto.
  - now apply outcome_eqb_eq.
Qed.

(** In the table of the source, two rules that can match one command
    give the same result. *)
Lemma table_agrees : all_agree _init_safety_rules = true.
Proof. vm_compute. reflexivity. Qed.

Lemma table_compiles : Forall compiles _init_safety_rules.
Proof. repeat constructor; vm_compute; discriminate. Qed.

Lemma safe_patterns_compile : Forall (fun p => compile p <> None) safe_patterns.
Proof. repeat constructor; vm_compute; discriminate. Qed.

(** A rule of the table that matches decides the result, whichever rule
    the scan stops at. *)
Lemma table_rule_decides rule s :
  In rule _init_safety_rules ->
  re_match (pattern rule) s = true ->
  exists r', first_rule _init_safety_rules s = Some r' /\ outcome r' = outcome rule.
Proof.
  intros Hin Hm.
  destruct (first_rule _init_safety_rules s) as [r'|] eqn:F.
  - exists r'. split; [reflexivity|].
    apply first_rule_some in F as [Hin' Hm'].
    apply (agree_spec r' rule s); auto.
    pose proof table_agrees as A. unfold all_agree in A.
    rewrite forallb_forall in A. specialize (A r' Hin').
    rewrite forallb_forall in A. now apply A.
  - rewrite first_rule_none in F. rewrite (F rule Hin) in Hm. discriminate.
Qed.

Lemma check_table_rule rule command :
  In rule _init_safety_rules ->
  re_match (pattern rule) (strip (lower command)) = true ->
  check_command_safety command = outcome rule.
Proof.
  intros Hin Hm. unfold check_command_safety, check_command_safety_with.
  destruct (table_rule_decides _ _ Hin Hm) as (r' & -> & E). exact E.
Qed.

Lemma check_normalized rules command :
  check_command_safety_with rules (strip (lower command))
  = check_command_safety_with rules command.
Proof. unfold check_command_safety_with. now rewrite normalize_idem. Qed.

Example check_command_safety_examples :
  check_command_safety "rm -rf /tmp/x" = (false, false, "File deletion not allowed")
  /\ check_command_safety "  Sudo  reboot" = (false, false, "Elevated privileges not allowed")
  /\ check_command_safety "echo hi" = (true, true, "Basic safe command")
  /\ check_command_safety "reboot" = (true, false, "Requires user confirmation")
  /\ check_command_safety "cd /tmp" = (true, false, "Requires user confirmation").
Proof. vm_compute. repeat split. Qed.

End AgentFacts.

(* ================================================================== *)
(** ** Properties of the classifier *)
(* ================================================================== *)

(** C3. A command whose normal form matches a rule of the table with
    [allowed = False] is classified [(False, False, reason)] with the
    reason of that rule; [auto_execute_safe_command] answers exit code 1
    with the blocked-for-safety message, and neither it nor the loop of
    [process_agent_query] makes any call on the operating system for it. *)
Theorem deny_rule_blocks (env : os_env) (cwd command : string) (rule : SafetyRule) :
  In rule _init_safety_rules ->
  allowed rule = false ->
  re_match (pattern rule) (strip (lower command)) = true ->
  check_command_safety command = (false, false, reason rule)
  /\ auto_execute_safe_command env cwd command
     = (Ok (1%Z, "", "Command blocked for safety: " ++ reason rule), cwd, [])
  /\ exists entry, process_command env cwd command = (Ok entry, cwd, [])
                   /\ ar_success entry = false.
Proof.
  intros Hin Hdeny Hm.
  assert (C : check_command_safety command = (false, false, reason rule)).
  { rewrite (AgentFacts.check_table_rule rule command Hin Hm).
    unfold outcome. rewrite Hdeny, andb_false_r. reflexivity. }
  split; [exact C|].
  unfold process_command, auto_execute_safe_command. rewrite C. simpl.
  split; [reflexivity | eexists; split; reflexivity].
Qed.

Lemma deny_rule_blocks_witness :
  check_command_safety "rm -rf /tmp/x" = (false, false, "File deletion not allowed")
  /\ auto_execute_safe_command env0 "/" "rm -rf /tmp/x"
     = (Ok (1%Z, "", "Command blocked for safety: File deletion not allowed"), "/", [])
  /\ exists entry, process_command env0 "/" "rm -rf /tmp/x" = (Ok entry, "/", [])
                   /\ ar_success entry = false.
Proof.
  apply (deny_rule_blocks env0 "/" "rm -rf /tmp/x"
           (mkRule "^rm\s+" false "File deletion not allowed" false)).
  - vm_compute. tauto.
  - reflexivity.
  - vm_compute. reflexivity.
Defined.

(** C4. For a command that, stripped, does not start with ["cd "],
    [auto_execute_safe_command] returns exit code 1 with an error message
    that is not empty, makes no call on the operating system and leaves
    the working directory alone; when the command is classified allowed
    and auto-executable, the message is the [NameError] of the unbound
    name [asyncio]. *)
Theorem auto_execute_never_spawns (env : os_env) (cwd command : string) :
  startswith (strip command) "cd " = false ->
  exists msg,
    auto_execute_safe_command env cwd command = (Ok (1%Z, "", msg), cwd, [])
    /\ msg <> ""
    /\ (forall why, check_command_safety command = (true, true, why) ->
                    msg = "name 'asyncio' is not defined").
Proof.
  intros Hcd. unfold auto_execute_safe_command. rewrite Hcd.
  destruct (check_command_safety command) as [[is_safe auto_exec] why].
  destruct is_safe; simpl.
  - destruct auto_exec; simpl.
    + eexists. split; [reflexivity|]. split; [discriminate | reflexivity].
    + eexists. split; [reflexivity|]. split; [discriminate|]. intros ? [=].
  - eexists. split; [reflexivity|]. split; [discriminate|]. intros ? [=].
Qed.

Lemma auto_execute_never_spawns_witness :
  exists msg,
    auto_execute_safe_command env0 "/" "ls -la" = (Ok (1%Z, "", msg), "/", [])
    /\ msg <> ""
    /\ (forall why, check_command_safety "ls -la" = (true, true, why) ->
                    msg = "name 'asyncio' is not defined").
Proof.
  apply (auto_execute_never_spawns env0 "/" "ls -la"). reflexivity.
Defined.

(** C7. The classifier works on the lowered and trimmed command (lowering
    and trimming commute, and a normalised command classifies as the
    original); rules are tried in the order of the table and the first
    one that matches decides: of two rules that both match, declared at
    [i < j], the result is that of a matching rule declared no later than
    [i], and that of the rule at [i] when nothing before it matches; in
    the table of the source the result is that of the rule at [i]; a
    match of an allow-and-auto-run rule gives [auto_execute = True]; and
    ["ls -la"] classifies as [(True, True, "Safe file listing")]. *)
Theorem first_matching_rule_decides :
  (forall s, strip (lower s) = lower (strip s))
  /\ (forall rules command,
        check_command_safety_with rules (strip (lower command))
        = check_command_safety_with rules command)
  /\ (forall rules command i j ri rj,
        Forall compiles rules ->
        i < j ->
        nth_error rules i = Some ri ->
        nth_error rules j = Some rj ->
        re_match (pattern ri) (strip (lower command)) = true ->
        re_match (pattern rj) (strip (lower command)) = true ->
        (exists h rh, h <= i /\ nth_error rules h = Some rh
                      /\ re_match (pattern rh) (strip (lower command)) = true
                      /\ check_command_safety_with rules command = outcome rh)
        /\ ((forall h rh, h < i -> nth_error rules h = Some rh ->
                          re_match (pattern rh) (strip (lower command)) = false) ->
            check_command_safety_with rules command = outcome ri))
  /\ (forall command i j ri rj,
        i < j ->
        nth_error _init_safety_rules i = Some ri ->
        nth_error _init_safety_rules j = Some rj ->
        re_match (pattern ri) (strip (lower command)) = true ->
        re_match (pattern rj) (strip (lower command)) = true ->
        check_command_safety command = outcome ri)
  /\ (forall command rule,
        In rule _init_safety_rules ->
        allowed rule = true -> auto_execute rule = true ->
        re_match (pattern rule) (strip (lower command)) = true ->
        check_command_safety command = (true, true, reason rule))
  /\ check_command_safety "ls -la" = (true, true, "Safe file listing").
Proof.
  split; [exact PyStrFacts.strip_lower|].
  split; [exact AgentFacts.check_normalized|].
  split; [|split; [|split]].
  - intros rules command i j ri rj _ _ Hi _ Hmi _. split.
    + destruct (AgentFacts.first_rule_first rules _ i ri Hi Hmi)
        as (h & rh & Hle & Hh & Hmh & _ & Hf).
      exists h, rh. repeat split; auto.
      unfold check_command_safety_with. now rewrite Hf.
    + intros Hbefore. unfold check_command_safety_with.
      now rewrite (AgentFacts.first_rule_at rules _ i ri Hi Hmi Hbefore).
  - intros command i j ri rj _ Hi _ Hmi _.
    apply AgentFacts.check_table_rule; [|assumption].
    eapply nth_error_In; eauto.
  - intros command rule Hin Ha Hx Hm.
    rewrite (AgentFacts.check_table_rule rule command Hin Hm).
    unfold outcome. now rewrite Ha, Hx.
  - reflexivity.
Qed.

Lemma first_matching_rule_decides_witness :
  check_command_safety_with overlapping_rules "  LS -la "
  = (true, true, "Safe file listing").
Proof.
  apply (proj2 (proj1 (proj2 (proj2 first_matching_rule_decides))
           overlapping_rules "  LS -la " 0 1
           (mkRule "^ls\s" true "Safe file listing" true)
           (mkRule "^ls\s+-la" false "Long listing not allowed" false)
           ltac:(repeat constructor; vm_compute; discriminate)
           ltac:(lia) eq_refl eq_refl eq_refl eq_refl)).
  intros h rh Hh. lia.
Defined.

(** C8. A command whose normal form matches no rule of the table and none
    of the secondary patterns is classified
    [(True, False, "Requires user confirmation")]. *)
Theorem unrecognized_requires_confirmation (command : string) :
  (forall rule, In rule _init_safety_rules ->
                re_match (pattern rule) (strip (lower command)) = false) ->
  (forall p, In p safe_patterns -> re_match p (strip (lower command)) = false) ->
  check_command_safety command = (true, false, "Requires user confirmation").
Proof.
  intros Hrules Hsafe. unfold check_command_safety, check_command_safety_with.
  apply AgentFacts.first_rule_none in Hrules. rewrite Hrules.
  destruct (existsb _ safe_patterns) eqn:E; [|reflexivity].
  apply existsb_exists in E as (p & Hp & Hm). rewrite (Hsafe p Hp) in Hm. discriminate.
Qed.

Lemma unrecognized_requires_confirmation_witness :
  check_command_safety "git status" = (true, false, "Requires user confirmation").
Proof.
  apply (unrecognized_requires_confirmation "git status").
  - intros rule Hin. apply negb_true_iff. revert rule Hin.
    apply (proj1 (forallb_forall
                    (fun rule => negb (re_match (pattern rule) (strip (lower "git status"))))
                    _init_safety_rules)).
    vm_compute. reflexivity.
  - intros p Hp. vm_compute in Hp.
    repeat (destruct Hp as [<-|Hp]; [vm_compute; reflexivity|]). contradiction.
Defined.

(* ================================================================== *)
(** ** The calls of a PTY session *)
(* ================================================================== *)

Module TraceFacts.

Lemma forallb_app_true {A} (f : A -> bool) (l1 l2 : list A) :
  forallb f l1 = true -> forallb f l2 = true -> forallb f (l1 ++ l2)%list = true.
Proof. intros H1 H2. now rewrite forallb_app, H1, H2. Qed.

Lemma stdin_pass_calls m t : forallb is_session_call (snd (stdin_pass m t)) = true.
Proof.
  unfold stdin_pass. destruct (t_stdin t) as [u|e]; [|reflexivity].
  destruct (is_empty u); [reflexivity|]. destruct (t_write t); reflexivity.
Qed.

Lemma master_pass_calls env m t buf :
  forallb is_session_call (snd (master_pass env m t buf)) = true.
Proof.
  unfold master_pass. destruct (t_read t) as [d|e]; [|reflexivity].
  destruct (is_empty d); [reflexivity|]. destruct (t_print t); reflexivity.
Qed.

Lemma multiplex_calls env m poll_end ticks : forall buf,
  forallb is_session_call (snd (multiplex env m ticks poll_end buf)) = true.
Proof.
  induction ticks as [|t ticks IH]; intros buf; simpl.
  - destruct poll_end; reflexivity.
  - destruct (t_select t) as [[rin rout]|e]; [|reflexivity].
    assert (P1 : forallb is_session_call
                   (snd (if rin then stdin_pass m t else (true, []))) = true).
    { destruct rin; [apply stdin_pass_calls | reflexivity]. }
    destruct (if rin then stdin_pass m t else (true, [])) as [go1 ev1].
    destruct go1; simpl in *; [|exact P1].
    assert (P2 : forallb is_session_call
                   (snd (if rout then master_pass env m t buf else (true, buf, []))) = true).
    { destruct rout; [apply master_pass_calls | reflexivity]. }
    destruct (if rout then master_pass env m t buf else (true, buf, []))
      as [[go2 buf2] ev2].
    destruct go2; simpl in *.
    + specialize (IH buf2).
      destruct (multiplex env m ticks poll_end buf2) as [[x buf3] ev3]. simpl in *.
      auto using forallb_app_true.
    + auto using forallb_app_true.
Qed.

Lemma drain_calls env m ds : forall buf,
  forallb is_session_call (snd (drain env m ds buf)) = true.
Proof.
  induction ds as [|d ds IH]; intros buf; simpl; [reflexivity|].
  destruct (d_select d) as [[|]|e]; try reflexivity.
  destruct (d_read d) as [data|e]; [|reflexivity].
  destruct (is_empty data); [reflexivity|].
  destruct (d_print d); [|reflexivity].
  specialize (IH (buf ++ decode env data)).
  destruct (drain env m ds (buf ++ decode env data)) as [b ev]. exact IH.
Qed.

Lemma session_body_calls env m sc :
  forallb is_session_call (snd (session_body env m sc)) = true.
Proof.
  unfold session_body.
  pose proof (multiplex_calls env m (s_poll_end sc) (s_loop sc) "") as P.
  destruct (multiplex env m (s_loop sc) (s_poll_end sc) "") as [[x buf] ev1].
  simpl in P. destruct x; [|exact P].
  destruct (s_wait sc) as [rc|e]; simpl.
  - pose proof (drain_calls env m (s_drain sc) buf) as D.
    destruct (drain env m (s_drain sc) buf) as [b ev2]. simpl in *.
    apply forallb_app_true; [exact P | exact D].
  - apply forallb_app_true; [exact P | reflexivity].
Qed.

Lemma session_calls env m sc st :
  forallb is_session_call (snd (session env m sc st)) = true.
Proof.
  unfold session.
  assert (R : forallb is_session_call (snd (enter_raw env sc st)) = true).
  { unfold enter_raw. destruct (s_tcgetattr sc); [destruct (s_setraw sc)|]; reflexivity. }
  destruct (enter_raw env sc st) as [[old st1] ev_raw]. simpl in R.
  pose proof (session_body_calls env m sc) as B.
  destruct (session_body env m sc) as [[r buf] ev_body]. simpl in B.
  set (hd := match r with
             | Raise KeyboardInterrupt => _
             | _ => (r, [])
             end).
  assert (I : forallb is_session_call (snd hd) = true).
  { subst hd. destruct r as [rc|[|msg]]; simpl; try reflexivity.
    unfold on_interrupt, force_kill.
    destruct (s_term sc), (s_wait_term sc), (s_kill sc); reflexivity. }
  destruct hd as [r' ev_int]. simpl in I.
  assert (F : forallb is_session_call (snd (restore old m sc st1)) = true).
  { unfold restore. destruct old; reflexivity. }
  destruct (restore old m sc st1) as [st2 ev_fin]. simpl in F. cbn [snd].
  auto using forallb_app_true.
Qed.

(** No call of [_execute_interactive_command] is one of the other two
    paths of the dispatcher. *)
Lemma interactive_calls env st command :
  forallb is_session_call (snd (_execute_interactive_command env st command)) = true.
Proof.
  unfold _execute_interactive_command.
  destruct (announce env command); [|reflexivity].
  destruct (s_openpty _) as [[m sl]|e]; [|reflexivity].
  destruct (s_popen _); [|reflexivity].
  destruct (s_close_slave _); [|reflexivity].
  set (st2 := set_fds _ _).
  pose proof (session_calls env m (pty_script env command (current_dir st)) st2) as S.
  destruct (session env m (pty_script env command (current_dir st)) st2) as [[r st3] ev].
  simpl in *. exact S.
Qed.

End TraceFacts.

(* ================================================================== *)
(** ** Properties of the dispatcher *)
(* ================================================================== *)

(** C5. When [os.chdir] fails for the target of a directory-change
    command, [_execute_command] returns exit code 1 with the text of the
    error in the error field, and neither the working directory of the
    process nor [self.current_dir] changes. *)
Theorem cd_failure_leaves_directory (env : os_env) (st : shell_state)
    (command msg : string) :
  is_cd command = true ->
  os_chdir env (proc_cwd st) (cd_target env command) = Raise (Exception msg) ->
  _execute_command env st command
  = (Ok (1%Z, "", msg), st, [EvChdir (cd_target env command)]).
Proof.
  intros Hcd Hfail. unfold _execute_command. rewrite Hcd, Hfail. reflexivity.
Qed.

Lemma cd_failure_leaves_directory_witness :
  _execute_command env_work st0 "cd /nonexistent"
  = (Ok (1%Z, "", "[Errno 2] No such file or directory: '/nonexistent'"),
     st0, [EvChdir "/nonexistent"]).
Proof.
  apply (cd_failure_leaves_directory env_work st0 "cd /nonexistent"); reflexivity.
Defined.

(** C6 fails on the bare command: ["cd"], stripped, does not start with
    ["cd "], so it is not a directory change for [_execute_command]; it
    goes to a shell in a child process, and the directory state stays. *)
Theorem bare_cd_runs_in_subshell (env : os_env) (st : shell_state) :
  is_cd "cd" = false
  /\ _execute_command env st "cd"
     = (match subprocess_shell env "cd" (current_dir st) with
        | Ok r => Ok r
        | Raise e => except_Exception e
        end, st, [EvSubprocessShell "cd" (current_dir st)]).
Proof.
  split; [reflexivity|].
  unfold _execute_command. simpl.
  destruct (subprocess_shell env "cd" (current_dir st)); reflexivity.
Qed.

(** C10 as stated fails: ["cd node_modules"] contains ["node"] and the
    detector says interactive, but the dispatcher changes directory. *)
Lemma cd_node_modules_is_not_a_session :
  ~ (forall env st command,
       names_interactive_program command = true ->
       _is_interactive_command env (proc_cwd st) command = true
       /\ _execute_command env st command
          = contain (_execute_interactive_command env st command)).
Proof.
  intros H. destruct (H env_work st0 "cd node_modules" eq_refl) as [_ E].
  vm_compute in E. discriminate.
Qed.

(** C10, amended. A command that contains one of the four names after
    lowering is interactive for the detector.  Unless it is a directory
    change, the dispatcher hands it to [_execute_interactive_command]:
    its result, state and calls are those of that function, an
    [Exception] that leaves it (the announcement of the command can
    raise one before any PTY is opened) being turned into exit code 1
    with its text; no shell of the batch path is started.  A directory
    change is handled first: it calls [os.chdir], then at most
    [os.getcwd], and nothing else. *)
Theorem interactive_name_routes_to_pty (env : os_env) (st : shell_state)
    (command : string) :
  names_interactive_program command = true ->
  _is_interactive_command env (proc_cwd st) command = true
  /\ (is_cd command = false ->
      _execute_command env st command
      = contain (_execute_interactive_command env st command)
      /\ forall cmd cwd,
           ~ In (EvSubprocessShell cmd cwd) (snd (_execute_command env st command)))
  /\ (is_cd command = true ->
      snd (_execute_command env st command) = [EvChdir (cd_target env command)]
      \/ snd (_execute_command env st command)
         = [EvChdir (cd_target env command); EvGetcwd]).
Proof.
  intros H.
  assert (I : _is_interactive_command env (proc_cwd st) command = true).
  { unfold _is_interactive_command. apply existsb_exists.
    exists names_interactive_program. split; [|exact H].
    right; right; left; reflexivity. }
  split; [exact I|]. split; intros Hcd; unfold _execute_command; rewrite Hcd.
  - rewrite I. split; [reflexivity|].
    intros cmd cwd Hin.
    pose proof (TraceFacts.interactive_calls env st command) as F.
    destruct (_execute_interactive_command env st command) as [[r st'] ev].
    simpl in Hin, F. rewrite forallb_forall in F. specialize (F _ Hin). discriminate.
  - destruct (os_chdir env (proc_cwd st) (cd_target env command)) as [d|e];
      [|left; reflexivity].
    destruct (os_getcwd env d); right; reflexivity.
Qed.

Lemma interactive_name_routes_to_pty_witness :
  _is_interactive_command env_work "/work" "ls node_modules" = true
  /\ _execute_command env_work st0 "ls node_modules"
     = contain (_execute_interactive_command env_work st0 "ls node_modules").
Proof.
  destruct (interactive_name_routes_to_pty env_work st0 "ls node_modules" eq_refl)
    as (I & R & _).
  split; [exact I | exact (proj1 (R eq_refl))].
Defined.

(** A command whose announcement the console refuses: the PTY function
    is left by the [MarkupError] of its own handler, no PTY is opened,
    and the dispatcher answers exit code 1 with the text of the error. *)
Example refused_announcement_opens_no_pty :
  _execute_interactive_command (env_pty sc_interrupt_in_select) st0 "node -e [/x]"
  = (Raise (Exception "closing tag '[/x]' doesn't match any open tag"), st0, [])
  /\ _execute_command (env_pty sc_interrupt_in_select) st0 "node -e [/x]"
     = (Ok (1%Z, "", "closing tag '[/x]' doesn't match any open tag"), st0, []).
Proof. split; reflexivity. Qed.

(** The default to the home directory is never taken: the target of a
    directory change is the argument, expanded. *)
Lemma cd_target_is_argument (env : os_env) (command : string) :
  is_cd command = true ->
  cd_target env command = expanduser env (strip (drop 3 (strip command))).
Proof.
  intros H. unfold cd_target.
  now rewrite (PyStrFacts.cd_argument_not_empty command H).
Qed.

(** A directory change that succeeds moves the process to the new
    directory, sets [self.current_dir] to what [os.getcwd()] answers
    there and returns exit code 0 with the confirmation. *)
Lemma cd_success_updates_directory (env : os_env) (st : shell_state)
    (command d cwd' : string) :
  is_cd command = true ->
  os_chdir env (proc_cwd st) (cd_target env command) = Ok d ->
  os_getcwd env d = Ok cwd' ->
  _execute_command env st command
  = (Ok (0%Z, "Changed directory to " ++ cwd', ""),
     mkState d cwd' (tty_attrs st) (open_fds st),
     [EvChdir (cd_target env command); EvGetcwd]).
Proof.
  intros Hcd Hok Hget. unfold _execute_command. rewrite Hcd, Hok, Hget. reflexivity.
Qed.

(* ================================================================== *)
(** ** Properties of the orchestrator *)
(* ================================================================== *)

Section OrchestratorFacts.
Variable W : Type.
Variable execute_command : string -> W -> res result * W.
Variable confirm_ask : W -> res bool * W.
Variable handle_command_error : string -> Z -> string -> string -> W -> res unit * W.
Variable is_interactive_command : string -> W -> bool.
Variable console_print : renderable -> res unit.
Variable console_status : string -> res unit.

Lemma snd_finish auto_confirm total x :
  snd (finish W console_print auto_confirm total x) = snd x.
Proof. destruct x as [[r w] l]. reflexivity. Qed.

Lemma finish_returns auto_confirm total x e :
  fst (fst x) = Raise e ->
  fst (fst (finish W console_print auto_confirm total x)) = Raise e.
Proof. destruct x as [[r w] l]. simpl. now intros ->. Qed.

Lemma run_commands_confirm_halts total commands : forall i n w,
  halts_at_failure
    (snd (run_commands W execute_command handle_command_error is_interactive_command
            console_print console_status false total commands i n w)).
Proof.
  induction commands as [|c rest IH]; intros i n w k command rc; simpl.
  - destruct k; discriminate.
  - destruct (before_command W is_interactive_command console_print console_status
                false i total c w); [|destruct k; discriminate].
    destruct (execute_command c w) as [[[[rc0 out] err]|e] w1].
    + destruct (rc0 =? 0)%Z eqn:E.
      * apply Z.eqb_eq in E.
        destruct (after_success W is_interactive_command console_print false c out w1).
        -- specialize (IH (S i) (S n) w1).
           destruct (run_commands W execute_command handle_command_error
                       is_interactive_command console_print console_status
                       false total rest (S i) (S n) w1) as [[r w2] l]. simpl in *.
           destruct k as [|k]; simpl.
           ++ intros [= <- <-] Hne. contradiction.
           ++ intros Hk Hne. f_equal. eapply IH; eauto.
        -- simpl. destruct k as [|[|k]]; simpl; try discriminate.
           intros [= <- <-] Hne. contradiction.
      * simpl.
        destruct (after_failure console_print rc0 err);
          [destruct (handle_command_error c rc0 out err w1) as [[u|e] w2]|]; simpl;
          (destruct k as [|[|k]]; simpl; [reflexivity | discriminate | discriminate]).
    + simpl. destruct k as [|[|k]]; simpl; discriminate.
Qed.

Lemma run_commands_auto_runs_all total commands : forall i n w,
  (forall e, fst (fst (run_commands W execute_command handle_command_error
                         is_interactive_command console_print console_status
                         true total commands i n w)) <> Raise e) ->
  map fst (snd (run_commands W execute_command handle_command_error
                  is_interactive_command console_print console_status
                  true total commands i n w)) = commands.
Proof.
  induction commands as [|c rest IH]; intros i n w; simpl; [reflexivity|].
  destruct (before_command W is_interactive_command console_print console_status
              true i total c w) as [u|e]; [|intros H; exfalso; now apply (H e)].
  destruct (execute_command c w) as [[[[rc0 out] err]|e] w1].
  - destruct (rc0 =? 0)%Z; simpl.
    + destruct (after_success W is_interactive_command console_print true c out w1)
        as [u'|e]; [|intros H; exfalso; now apply (H e)].
      specialize (IH (S i) (S n) w1).
      destruct (run_commands W execute_command handle_command_error
                  is_interactive_command console_print console_status
                  true total rest (S i) (S n) w1) as [[r w2] l].
      simpl in *. intros H. f_equal. now apply IH.
    + specialize (IH (S i) n w1).
      destruct (run_commands W execute_command handle_command_error
                  is_interactive_command console_print console_status
                  true total rest (S i) n w1) as [[r w2] l].
      simpl in *. intros H. f_equal. now apply IH.
  - simpl. intros H. exfalso. now apply (H e).
Qed.

(** Commands are run in the order of the sequence, none skipped. *)
Lemma run_commands_in_order auto_confirm total commands : forall i n w,
  exists rest,
    commands
    = (map fst (snd (run_commands W execute_command handle_command_error
                       is_interactive_command console_print console_status
                       auto_confirm total commands i n w)) ++ rest)%list.
Proof.
  induction commands as [|c rest IH]; intros i n w; simpl; [now exists []|].
  destruct (before_command W is_interactive_command console_print console_status
              auto_confirm i total c w); [|now exists (c :: rest)].
  destruct (execute_command c w) as [[[[rc0 out] err]|e] w1].
  - destruct (rc0 =? 0)%Z; [|destruct auto_confirm]; simpl.
    + destruct (after_success W is_interactive_command console_print auto_confirm c out w1);
        [|now exists rest].
      destruct (IH (S i) (S n) w1) as [t Ht].
      destruct (run_commands W execute_command handle_command_error
                  is_interactive_command console_print console_status
                  auto_confirm total rest (S i) (S n) w1) as [[r w2] l].
      simpl in *. exists t. now f_equal.
    + destruct (IH (S i) n w1) as [t Ht].
      destruct (run_commands W execute_command handle_command_error
                  is_interactive_command console_print console_status
                  true total rest (S i) n w1) as [[r w2] l].
      simpl in *. exists t. now f_equal.
    + destruct (after_failure console_print rc0 err);
        [destruct (handle_command_error c rc0 out err w1) as [[u'|e] w2]|];
        simpl; now exists rest.
  - simpl. now exists rest.
Qed.

(** C2, amended. In interactive-confirm mode no command of the sequence
    is run after one that returned a non-zero exit code.  In
    auto-confirm mode a non-zero exit code does not stop the sequence:
    unless an exception leaves the orchestrator, every command is run.
    In both modes the commands are run in order. *)
Theorem confirm_mode_halts_auto_mode_runs_all (commands : list string) (w : W) :
  let orchestrate :=
    _execute_commands_with_confirmation W execute_command confirm_ask
      handle_command_error is_interactive_command console_print console_status
      commands in
  halts_at_failure (snd (orchestrate false w))
  /\ ((forall e, fst (fst (orchestrate true w)) <> Raise e) ->
      map fst (snd (orchestrate true w)) = commands)
  /\ (forall auto_confirm,
        exists rest, commands = (map fst (snd (orchestrate auto_confirm w)) ++ rest)%list).
Proof.
  cbv zeta. unfold _execute_commands_with_confirmation.
  destruct commands as [|c rest].
  - split; [|split].
    + destruct (console_print _); intros [|k] ? ? H; discriminate.
    + destruct (console_print _); reflexivity.
    + intros _. destruct (console_print _); now exists [].
  - destruct (_display_commands console_print (c :: rest)) as [u|e].
    2:{ split; [|split].
        - intros [|k] ? ? H; discriminate.
        - intros H. exfalso. now apply (H e).
        - intros _. now exists (c :: rest). }
    split; [|split].
    + destruct (confirm_ask w) as [[[|]|e] w1]; lazy beta iota;
        try (intros [|k] ? ? H; discriminate).
      * rewrite snd_finish. apply run_commands_confirm_halts.
      * destruct (console_print _); intros [|k] ? ? H; discriminate.
    + destruct (console_print _) as [u'|e]; [|intros H; exfalso; now apply (H e)].
      intros H. rewrite snd_finish. apply run_commands_auto_runs_all.
      intros e He. apply (H e). now apply finish_returns.
    + intros [|].
      * destruct (console_print _); [|now exists (c :: rest)].
        rewrite snd_finish. apply run_commands_in_order.
      * destruct (confirm_ask w) as [[[|]|e] w1]; lazy beta iota;
          try (now exists (c :: rest)).
        -- rewrite snd_finish. apply (run_commands_in_order false).
        -- destruct (console_print _); now exists (c :: rest).
Qed.

End OrchestratorFacts.

(** The orchestrator over the dispatcher of the shell: [mkdir t], [cd t]
    and [ls] in auto-confirm mode all succeed and leave both directories
    at the new path. *)
Example mkdir_cd_ls :
  _execute_commands_with_confirmation shell_state (dispatch env_work)
    (fun st => (Ok true, st)) (fun _ _ _ _ st => (Ok tt, st))
    (detect env_work) console_ok status_ok
    ["mkdir t"; "cd t"; "ls"] true st0
  = (Ok true, mkState "/work/t" "/work/t" attrs0 [0; 1; 2]%Z,
     [("mkdir t", Ok 0%Z); ("cd t", Ok 0%Z); ("ls", Ok 0%Z)]).
Proof. reflexivity. Qed.

(** C2 as stated fails in auto-confirm mode: after [false] has returned
    1, [echo hi] is run. *)
Lemma auto_confirm_runs_past_failure :
  ~ (forall (W : Type) execute_command confirm_ask handle_command_error
            is_interactive_command console_print console_status
            (commands : list string) (auto_confirm : bool) (w : W),
       commands <> [] ->
       halts_at_failure
         (snd (_execute_commands_with_confirmation W execute_command confirm_ask
                 handle_command_error is_interactive_command console_print
                 console_status commands auto_confirm w))).
Proof.
  intros H.
  specialize (H unit execute_sample confirm_yes handle_nothing
                never_interactive console_ok status_ok
                ["false"; "echo hi"] true tt ltac:(discriminate)
                0 "false" 1%Z eq_refl ltac:(discriminate)).
  vm_compute in H. discriminate.
Qed.

Lemma confirm_mode_halts_auto_mode_runs_all_witness :
  List.length (snd (_execute_commands_with_confirmation unit execute_sample confirm_yes
                      handle_nothing never_interactive console_ok status_ok
                      ["echo a"; "false"; "echo b"] false tt)) = 2
  /\ map fst (snd (_execute_commands_with_confirmation unit execute_sample confirm_yes
                     handle_nothing never_interactive console_ok status_ok
                     ["echo a"; "false"; "echo b"] true tt))
     = ["echo a"; "false"; "echo b"].
Proof.
  destruct (confirm_mode_halts_auto_mode_runs_all unit execute_sample confirm_yes
              handle_nothing never_interactive console_ok status_ok
              ["echo a"; "false"; "echo b"] tt) as (H1 & H2 & _).
  split.
  - apply (H1 1 "false" 1%Z); [reflexivity | discriminate].
  - apply H2. intros e. vm_compute. discriminate.
Defined.

(* ================================================================== *)
(** ** Properties of the PTY session *)
(* ================================================================== *)

Module SessionFacts.

Lemma stdin_pass_no_restore m t : filter is_restore (snd (stdin_pass m t)) = [].
Proof.
  unfold stdin_pass. destruct (t_stdin t) as [u|e]; [|reflexivity].
  destruct (is_empty u); [reflexivity|]. destruct (t_write t); reflexivity.
Qed.

Lemma master_pass_no_restore env m t buf :
  filter is_restore (snd (master_pass env m t buf)) = [].
Proof.
  unfold master_pass. destruct (t_read t) as [d|e]; [|reflexivity].
  destruct (is_empty d); [reflexivity|]. destruct (t_print t); reflexivity.
Qed.

Lemma filter_nil_app (l1 l2 : list event) :
  filter is_restore l1 = [] -> filter is_restore l2 = [] ->
  filter is_restore (l1 ++ l2)%list = [].
Proof. intros H1 H2. now rewrite filter_app, H1, H2. Qed.

Lemma multiplex_no_restore env m poll_end ticks : forall buf,
  filter is_restore (snd (multiplex env m ticks poll_end buf)) = [].
Proof.
  induction ticks as [|t ticks IH]; intros buf; simpl.
  - destruct poll_end; reflexivity.
  - destruct (t_select t) as [[rin rout]|e]; [|reflexivity].
    assert (P1 : filter is_restore
                   (snd (if rin then stdin_pass m t else (true, []))) = []).
    { destruct rin; [apply stdin_pass_no_restore | reflexivity]. }
    destruct (if rin then stdin_pass m t else (true, [])) as [go1 ev1].
    destruct go1; simpl in *; [|exact P1].
    assert (P2 : filter is_restore
                   (snd (if rout then master_pass env m t buf else (true, buf, []))) = []).
    { destruct rout; [apply master_pass_no_restore | reflexivity]. }
    destruct (if rout then master_pass env m t buf else (true, buf, []))
      as [[go2 buf2] ev2].
    destruct go2; simpl in *.
    + specialize (IH buf2).
      destruct (multiplex env m ticks poll_end buf2) as [[x buf3] ev3]. simpl in *.
      auto using filter_nil_app.
    + auto using filter_nil_app.
Qed.

Lemma drain_no_restore env m ds : forall buf,
  filter is_restore (snd (drain env m ds buf)) = [].
Proof.
  induction ds as [|d ds IH]; intros buf; simpl; [reflexivity|].
  destruct (d_select d) as [[|]|e]; try reflexivity.
  destruct (d_read d) as [data|e]; [|reflexivity].
  destruct (is_empty data); [reflexivity|].
  destruct (d_print d); [|reflexivity].
  specialize (IH (buf ++ decode env data)).
  destruct (drain env m ds (buf ++ decode env data)) as [b ev]. exact IH.
Qed.

Lemma session_body_no_restore env m sc :
  filter is_restore (snd (session_body env m sc)) = [].
Proof.
  unfold session_body.
  pose proof (multiplex_no_restore env m (s_poll_end sc) (s_loop sc) "") as P.
  destruct (multiplex env m (s_loop sc) (s_poll_end sc) "") as [[x buf] ev1].
  simpl in P. destruct x; [|exact P].
  destruct (s_wait sc) as [rc|e]; simpl.
  - pose proof (drain_no_restore env m (s_drain sc) buf) as D.
    destruct (drain env m (s_drain sc) buf) as [b ev2]. simpl in *.
    apply filter_nil_app; [exact P | exact D].
  - apply filter_nil_app; [exact P | reflexivity].
Qed.

Lemma on_interrupt_no_restore sc : filter is_restore (on_interrupt sc) = [].
Proof.
  unfold on_interrupt, force_kill.
  destruct (s_term sc), (s_wait_term sc), (s_kill sc); reflexivity.
Qed.

Lemma close_fd_not_in fd fds : ~ In fd (close_fd fd fds).
Proof.
  unfold close_fd. intros H. apply filter_In in H as [_ H].
  rewrite Z.eqb_refl in H. discriminate.
Qed.

Lemma enter_raw_spec env sc st :
  fst (fst (enter_raw env sc st)) = captured sc st
  /\ filter is_restore (snd (enter_raw env sc st)) = []
  /\ (captured sc st = None ->
      tty_attrs (snd (fst (enter_raw env sc st))) = tty_attrs st).
Proof.
  unfold enter_raw, captured.
  destruct (s_tcgetattr sc); [destruct (s_setraw sc)|]; simpl;
    repeat split; (reflexivity || discriminate).
Qed.

Lemma restore_spec old m sc st :
  snd (restore old m sc st) = restore_events old m
  /\ (s_close_master sc = Ok tt -> ~ In m (open_fds (fst (restore old m sc st))))
  /\ tty_attrs (fst (restore old m sc st))
     = match old, s_tcsetattr sc with
       | Some a, Ok _ => a
       | _, _ => tty_attrs st
       end.
Proof.
  unfold restore, restore_events.
  destruct old as [a|]; [destruct (s_tcsetattr sc)|];
    (split; [reflexivity|]; split;
     [intros ->; simpl; apply close_fd_not_in
     |destruct (s_close_master sc); reflexivity]).
Qed.

(** What [session] does, phase by phase. *)
Lemma session_spec env m sc st :
  exists body,
    snd (session env m sc st) = (body ++ restore_events (captured sc st) m)%list
    /\ filter is_restore body = []
    /\ (s_tcsetattr sc = Ok tt \/ captured sc st = None ->
        tty_attrs (snd (fst (session env m sc st))) = tty_attrs st)
    /\ (s_close_master sc = Ok tt ->
        ~ In m (open_fds (snd (fst (session env m sc st))))).
Proof.
  unfold session.
  destruct (enter_raw_spec env sc st) as (Eold & Eno & Etty).
  destruct (enter_raw env sc st) as [[old st1] ev_raw]. simpl in Eold, Eno, Etty.
  pose proof (session_body_no_restore env m sc) as B.
  destruct (session_body env m sc) as [[r buf] ev_body]. simpl in B.
  set (hd := match r with
             | Raise KeyboardInterrupt => _
             | _ => (r, [])
             end).
  assert (I : filter is_restore (snd hd) = []).
  { subst hd. destruct r as [rc|[|msg]]; simpl; auto using on_interrupt_no_restore. }
  destruct hd as [r' ev_int]. simpl in I.
  destruct (restore_spec old m sc st1) as (Rev & Rfd & Rtty).
  destruct (restore old m sc st1) as [st2 ev_fin]. simpl in Rev, Rfd, Rtty.
  cbn [fst snd]. subst ev_fin old.
  exists (ev_raw ++ ev_body ++ ev_int)%list.
  split; [now rewrite <- !app_assoc|].
  split; [auto using filter_nil_app|].
  split; [|exact Rfd].
  rewrite Rtty. unfold captured in *.
  destruct (s_tcgetattr sc) as [u|e].
  - intros [->|[=]]. reflexivity.
  - intros _. now apply Etty.
Qed.



(** A [KeyboardInterrupt] that leaves the body of the inner [try] (raised
    by [poll], [select] or [process.wait()]) reaches the handler: the
    calls of the handler follow those of the body, and the exit code is
    -1 when the lines behind it are shown. *)
Lemma interrupt_reaching_handler (env : os_env) (master_fd : Z)
    (sc : session_script) (st : shell_state) (buf : string) (ev : list event) :
  session_body env master_fd sc = (Raise KeyboardInterrupt, buf, ev) ->
  snd (session env master_fd sc st)
  = (snd (enter_raw env sc st) ++ ev ++ on_interrupt sc
     ++ restore_events (captured sc st) master_fd)%list
  /\ (say env (LF ++ "[yellow]Program interrupted[/yellow]") = Ok tt ->
      report env (-1) = Ok tt ->
      fst (fst (session env master_fd sc st)) = Ok ((-1)%Z, buf, "")).
Proof.
  intros H. unfold session. rewrite H.
  destruct (enter_raw_spec env sc st) as (Eold & _ & _).
  destruct (enter_raw env sc st) as [[old st1] ev_raw]. simpl in Eold. subst old.
  destruct (restore_spec (captured sc st) master_fd sc st1) as (Rev & _ & _).
  destruct (restore (captured sc st) master_fd sc st1) as [st2 ev_fin].
  simpl in Rev. subst ev_fin. split; [reflexivity|].
  intros Hs Hr. cbn [fst snd]. now rewrite Hs, Hr.
Qed.

End SessionFacts.

(** C1. In a session that has its PTY and its child, whatever the calls
    of the multiplexing, the draining and the interrupt handling answer
    or raise: the calls made after the set-up are a body without any
    [tcsetattr] or [close], followed by one [tcsetattr] with the captured
    attributes (when they were captured) and one [close] of the master
    descriptor; if that [tcsetattr] does not fail, or nothing was
    captured, the terminal has the attributes it had before the session;
    if that [close] does not fail, the master descriptor is not open.
    A session has its PTY and its child when the announcement of the
    command was shown and [openpty], [Popen] and the [close] of the
    slave descriptor returned. *)
Theorem terminal_restored_exactly_once (env : os_env) (st : shell_state)
    (command : string) (master_fd slave_fd pid : Z) :
  let sc := pty_script env command (current_dir st) in
  let run := _execute_interactive_command env st command in
  announce env command = Ok tt ->
  s_openpty sc = Ok (master_fd, slave_fd) ->
  s_popen sc = Ok pid ->
  s_close_slave sc = Ok tt ->
  exists body,
    snd run = ([EvOpenpty; EvPopen command slave_fd (current_dir st); EvClose slave_fd]
               ++ body ++ restore_events (captured sc st) master_fd)%list
    /\ filter is_restore body = []
    /\ (s_tcsetattr sc = Ok tt \/ captured sc st = None ->
        tty_attrs (snd (fst run)) = tty_attrs st)
    /\ (s_close_master sc = Ok tt -> ~ In master_fd (open_fds (snd (fst run)))).
Proof.
  intros sc run Ha Ho Hp Hc. subst run. unfold _execute_interactive_command.
  fold sc. rewrite Ha, Ho, Hp, Hc.
  set (st2 := set_fds _ _).
  destruct (SessionFacts.session_spec env master_fd sc st2) as (body & E & F & T & C).
  destruct (session env master_fd sc st2) as [[r st3] ev]. simpl in *.
  exists body. split; [now rewrite E|]. split; [exact F|]. split; [exact T | exact C].
Qed.

Lemma terminal_restored_exactly_once_witness :
  exists body,
    snd (_execute_interactive_command (env_pty sc_interrupt_in_select) st0 "python -i")
    = ([EvOpenpty; EvPopen "python -i" 4 "/work"; EvClose 4]
       ++ body ++ [EvTcsetattr attrs0; EvClose 3])%list
    /\ filter is_restore body = []
    /\ (s_tcsetattr sc_interrupt_in_select = Ok tt
        \/ captured sc_interrupt_in_select st0 = None ->
        tty_attrs (snd (fst (_execute_interactive_command
                               (env_pty sc_interrupt_in_select) st0 "python -i")))
        = attrs0)
    /\ (s_close_master sc_interrupt_in_select = Ok tt ->
        ~ In 3%Z (open_fds (snd (fst (_execute_interactive_command
                                        (env_pty sc_interrupt_in_select) st0 "python -i"))))).
Proof.
  exact (terminal_restored_exactly_once (env_pty sc_interrupt_in_select) st0
           "python -i" 3 4 4242 eq_refl eq_refl eq_refl eq_refl).
Defined.

(** The session of [sc_interrupt_in_select], call by call. *)
Example interrupt_in_select_kills_child :
  _execute_interactive_command (env_pty sc_interrupt_in_select) st0 "python -i"
  = (Ok ((-1)%Z, ">>> ", ""), st0,
     [EvOpenpty; EvPopen "python -i" 4 "/work"; EvClose 4;
      EvTcgetattr; EvSetraw;
      EvPoll; EvSelect true; EvRead 3; EvPrint ">>> ";
      EvPoll; EvSelect true;
      EvKillpg SIGTERM; EvWait (Some 2%Z); EvKillpg SIGKILL; EvWait (Some 1%Z);
      EvTcsetattr attrs0; EvClose 3]).
Proof. reflexivity. Qed.



(** An exception raised inside one of the two guarded blocks of the loop
    does not end the loop as an exception: [except: break] takes it,
    whatever it is, and the session goes on to wait for the child. *)
Example exception_in_guarded_read_breaks :
  _execute_interactive_command (env_pty sc_interrupt_in_read) st0 "python -i"
  = (Ok (0%Z, "", ""), st0,
     [EvOpenpty; EvPopen "python -i" 4 "/work"; EvClose 4;
      EvTcgetattr; EvSetraw;
      EvPoll; EvSelect true; EvStdinRead;
      EvWait None; EvSelect false;
      EvTcsetattr attrs0; EvClose 3]).
Proof. reflexivity. Qed.

(* ================================================================== *)
(** ** Further properties of the dispatcher and of the PTY session *)
(* ================================================================== *)

Module RunFacts.

Lemma except_Exception_contains e msg : except_Exception e <> Raise (Exception msg).
Proof. destruct e; discriminate. Qed.

Lemma printed_app (l1 l2 : list event) :
  handed_to_print (l1 ++ l2)%list = handed_to_print l1 ++ handed_to_print l2.
Proof.
  induction l1 as [|e l1 IH]; simpl; [reflexivity|].
  destruct e; simpl; auto. now rewrite IH, PyStrFacts.append_assoc.
Qed.

Lemma stdin_pass_printed m t : handed_to_print (snd (stdin_pass m t)) = "".
Proof.
  unfold stdin_pass. destruct (t_stdin t) as [u|e]; [|reflexivity].
  destruct (is_empty u); [reflexivity|]. destruct (t_write t); reflexivity.
Qed.

Lemma master_pass_printed env m t buf :
  snd (fst (master_pass env m t buf)) = buf ++ handed_to_print (snd (master_pass env m t buf)).
Proof.
  unfold master_pass. destruct (t_read t) as [d|e]; simpl;
    [|now rewrite PyStrFacts.append_empty_r].
  destruct (is_empty d); simpl; [now rewrite PyStrFacts.append_empty_r|].
  destruct (t_print t); simpl; now rewrite PyStrFacts.append_empty_r.
Qed.

Lemma multiplex_printed env m poll_end ticks : forall buf,
  snd (fst (multiplex env m ticks poll_end buf))
  = buf ++ handed_to_print (snd (multiplex env m ticks poll_end buf)).
Proof.
  induction ticks as [|t ticks IH]; intros buf; simpl.
  - destruct poll_end; simpl; now rewrite PyStrFacts.append_empty_r.
  - destruct (t_select t) as [[rin rout]|e]; simpl;
      [|now rewrite PyStrFacts.append_empty_r].
    assert (P1 : handed_to_print (snd (if rin then stdin_pass m t else (true, []))) = "").
    { destruct rin; [apply stdin_pass_printed | reflexivity]. }
    destruct (if rin then stdin_pass m t else (true, [])) as [go1 ev1]. simpl in P1.
    destruct go1; simpl; [|now rewrite P1, PyStrFacts.append_empty_r].
    assert (P2 : snd (fst (if rout then master_pass env m t buf else (true, buf, [])))
                 = buf ++ handed_to_print (snd (if rout then master_pass env m t buf
                                        else (true, buf, [])))).
    { destruct rout; [apply master_pass_printed | simpl; now rewrite PyStrFacts.append_empty_r]. }
    destruct (if rout then master_pass env m t buf else (true, buf, []))
      as [[go2 buf2] ev2]. simpl in P2.
    destruct go2; simpl.
    + specialize (IH buf2).
      destruct (multiplex env m ticks poll_end buf2) as [[x buf3] ev3]. simpl in *.
      rewrite !printed_app, P1, IH, P2. simpl. now rewrite PyStrFacts.append_assoc.
    + rewrite printed_app, P1. exact P2.
Qed.

Lemma drain_printed env m ds : forall buf,
  fst (drain env m ds buf) = buf ++ handed_to_print (snd (drain env m ds buf)).
Proof.
  induction ds as [|d ds IH]; intros buf; simpl;
    [now rewrite PyStrFacts.append_empty_r|].
  destruct (d_select d) as [[|]|e]; simpl; try now rewrite PyStrFacts.append_empty_r.
  destruct (d_read d) as [data|e]; simpl; [|now rewrite PyStrFacts.append_empty_r].
  destruct (is_empty data); simpl; [now rewrite PyStrFacts.append_empty_r|].
  destruct (d_print d); simpl; [|now rewrite PyStrFacts.append_empty_r].
  specialize (IH (buf ++ decode env data)).
  destruct (drain env m ds (buf ++ decode env data)) as [b ev]. simpl in *.
  now rewrite IH, PyStrFacts.append_assoc.
Qed.

Lemma session_body_printed env m sc :
  snd (fst (session_body env m sc)) = handed_to_print (snd (session_body env m sc)).
Proof.
  unfold session_body.
  pose proof (multiplex_printed env m (s_poll_end sc) (s_loop sc) "") as P.
  destruct (multiplex env m (s_loop sc) (s_poll_end sc) "") as [[x buf] ev1].
  simpl in P. destruct x; [|exact P].
  destruct (s_wait sc) as [rc|e]; simpl.
  - pose proof (drain_printed env m (s_drain sc) buf) as D.
    destruct (drain env m (s_drain sc) buf) as [b ev2]. simpl in *.
    rewrite printed_app. simpl. now rewrite D, P.
  - rewrite printed_app. simpl. now rewrite PyStrFacts.append_empty_r.
Qed.

Lemma on_interrupt_printed sc : handed_to_print (on_interrupt sc) = "".
Proof.
  unfold on_interrupt, force_kill.
  destruct (s_term sc), (s_wait_term sc), (s_kill sc); reflexivity.
Qed.

Lemma enter_raw_printed env sc st : handed_to_print (snd (enter_raw env sc st)) = "".
Proof.
  unfold enter_raw. destruct (s_tcgetattr sc); [destruct (s_setraw sc)|]; reflexivity.
Qed.

Lemma restore_printed old m sc st : handed_to_print (snd (restore old m sc st)) = "".
Proof. unfold restore. destruct old; reflexivity. Qed.

(** What [session] returns as stdout is what it handed to [print]. *)
Lemma session_result env m sc st rc out err :
  fst (fst (session env m sc st)) = Ok (rc, out, err) ->
  out = handed_to_print (snd (session env m sc st)) /\ err = "".
Proof.
  unfold session.
  pose proof (enter_raw_printed env sc st) as R.
  destruct (enter_raw env sc st) as [[old st1] ev_raw]. simpl in R.
  pose proof (session_body_printed env m sc) as B.
  destruct (session_body env m sc) as [[r buf] ev_body]. simpl in B.
  pose proof (restore_printed old m sc st1) as F.
  destruct (restore old m sc st1) as [st2 ev_fin]. simpl in F.
  destruct r as [rc0|[|msg]]; cbn [fst snd].
  - destruct (report env rc0); [|discriminate]. intros [= <- <- <-].
    rewrite !printed_app, R, F. simpl. rewrite PyStrFacts.append_empty_r. auto.
  - destruct (say env _); [|discriminate].
    destruct (report env (-1)); [|discriminate]. intros [= <- <- <-].
    rewrite !printed_app, R, F, on_interrupt_printed. simpl.
    rewrite PyStrFacts.append_empty_r. auto.
  - discriminate.
Qed.

Lemma session_dirs env m sc st :
  proc_cwd (snd (fst (session env m sc st))) = proc_cwd st
  /\ current_dir (snd (fst (session env m sc st))) = current_dir st.
Proof.
  unfold session, enter_raw, restore.
  destruct (session_body env m sc) as [[r buf] ev_body].
  destruct (s_tcgetattr sc); [destruct (s_setraw sc)|];
    destruct r as [rc|[|msg]]; destruct (s_tcsetattr sc); destruct (s_close_master sc);
    split; reflexivity.
Qed.

Lemma session_fds env m sc st :
  s_close_master sc = Ok tt ->
  open_fds (snd (fst (session env m sc st))) = close_fd m (open_fds st).
Proof.
  intros C. unfold session, enter_raw, restore. rewrite C.
  destruct (session_body env m sc) as [[r buf] ev_body].
  destruct (s_tcgetattr sc); [destruct (s_setraw sc)|];
    destruct r as [rc|[|msg]]; destruct (s_tcsetattr sc); reflexivity.
Qed.

Lemma interactive_dirs env st command :
  proc_cwd (snd (fst (_execute_interactive_command env st command))) = proc_cwd st
  /\ current_dir (snd (fst (_execute_interactive_command env st command))) = current_dir st.
Proof.
  unfold _execute_interactive_command.
  destruct (announce env command); [|split; reflexivity].
  destruct (s_openpty _) as [[m s]|e]; [|split; reflexivity].
  destruct (s_popen _); [|split; reflexivity].
  destruct (s_close_slave _); [|split; reflexivity].
  set (st2 := set_fds _ _).
  destruct (session_dirs env m (pty_script env command (current_dir st)) st2) as [D1 D2].
  destruct (session env m _ st2) as [[r st3] ev]. simpl in *. now rewrite D1, D2.
Qed.

Lemma close_fd_absent fd fds : ~ In fd fds -> close_fd fd fds = fds.
Proof.
  unfold close_fd. induction fds as [|x fds IH]; simpl; [reflexivity|].
  intros H. destruct (Z.eqb_spec x fd) as [->|Hne]; simpl.
  - exfalso. apply H. now left.
  - rewrite IH; [reflexivity|]. intros Hin. apply H. now right.
Qed.

Lemma close_pair m s fds :
  ~ In m fds -> ~ In s fds -> close_fd m (close_fd s (m :: s :: fds)) = fds.
Proof.
  intros Nm Ns. unfold close_fd at 2. cbn [filter]. rewrite Z.eqb_refl. cbn [negb].
  fold (close_fd s fds). rewrite (close_fd_absent s fds Ns).
  destruct (m =? s)%Z; cbn [negb].
  - now apply close_fd_absent.
  - unfold close_fd. cbn [filter]. rewrite Z.eqb_refl. cbn [negb].
    now apply close_fd_absent.
Qed.

Lemma contain_state x : snd (fst (contain x)) = snd (fst x).
Proof. destruct x as [[r st] ev]. reflexivity. Qed.

(** A command that is no directory change leaves both directories. *)
Lemma other_command_dirs (env : os_env) (st : shell_state) (command : string) :
  is_cd command = false ->
  proc_cwd (snd (fst (_execute_command env st command))) = proc_cwd st
  /\ current_dir (snd (fst (_execute_command env st command))) = current_dir st.
Proof.
  intros Hcd. unfold _execute_command. rewrite Hcd.
  destruct (_is_interactive_command env (proc_cwd st) command).
  - rewrite contain_state. apply interactive_dirs.
  - destruct (subprocess_shell env command (current_dir st)); split; reflexivity.
Qed.

End RunFacts.

(** X1. [_execute_command] lets no [Exception] out: whatever the calls
    and the console answer or raise, it returns a result or is left by a
    [KeyboardInterrupt]. *)
Theorem execute_command_contains_exceptions (env : os_env) (st : shell_state)
    (command msg : string) :
  fst (fst (_execute_command env st command)) <> Raise (Exception msg).
Proof.
  unfold _execute_command. destruct (is_cd command).
  - destruct (os_chdir env (proc_cwd st) (cd_target env command)) as [d|e]; simpl;
      [|apply RunFacts.except_Exception_contains].
    destruct (os_getcwd env d); simpl;
      [discriminate | apply RunFacts.except_Exception_contains].
  - destruct (_is_interactive_command env (proc_cwd st) command).
    + destruct (_execute_interactive_command env st command) as [[[v|e] st'] ev]; simpl;
        [discriminate | apply RunFacts.except_Exception_contains].
    + destruct (subprocess_shell env command (current_dir st)); simpl;
        [discriminate | apply RunFacts.except_Exception_contains].
Qed.

(** X2. What [_execute_interactive_command] returns as stdout: when it
    returns a result, either the stdout is the output of the child that
    the session handed to [print], chunk by chunk and in order (a chunk
    is added to the buffer before it is handed over, so one whose
    [print] raised is in it) and the stderr is empty; or an [Exception]
    was caught behind the session, the exit code is 1, the stdout is
    empty, what was collected is dropped, and the stderr is the text of
    the exception, which the console has shown. *)
Theorem session_stdout_is_what_it_handed_to_print (env : os_env) (st : shell_state)
    (command : string) (returncode : Z) (stdout stderr : string) :
  let run := _execute_interactive_command env st command in
  fst (fst run) = Ok (returncode, stdout, stderr) ->
  (stdout = handed_to_print (snd run) /\ stderr = "")
  \/ (returncode = 1%Z /\ stdout = ""
      /\ say env ("[bold red]Error running interactive command: " ++ stderr
                  ++ "[/bold red]") = Ok tt).
Proof.
  cbv zeta. unfold _execute_interactive_command.
  assert (H : forall e ev,
            on_exception env e = Ok (returncode, stdout, stderr) ->
            (stdout = handed_to_print ev /\ stderr = "")
            \/ (returncode = 1%Z /\ stdout = ""
                /\ say env ("[bold red]Error running interactive command: " ++ stderr
                            ++ "[/bold red]") = Ok tt)).
  { intros [|msg0] ev; simpl; [discriminate|].
    destruct (say env _) as [[]|e'] eqn:S; [|discriminate].
    intros [= <- <- <-]. right. auto. }
  destruct (announce env command); [|apply (H e)].
  destruct (s_openpty _) as [[m s]|e]; [|apply (H e)].
  destruct (s_popen _); [|apply (H e)].
  destruct (s_close_slave _); [|apply (H e)].
  set (st2 := set_fds _ _).
  pose proof (RunFacts.session_result env m
                (pty_script env command (current_dir st)) st2) as R.
  destruct (session env m _ st2) as [[[[[rc out] err]|e] st3] ev]; cbn [fst snd] in *.
  - intros [= <- <- <-]. left. destruct (R rc out err eq_refl) as [-> ->].
    split; reflexivity.
  - apply (H e).
Qed.

Lemma session_stdout_is_what_it_handed_to_print_witness :
  (">>> " = handed_to_print (snd (_execute_interactive_command
                                    (env_pty sc_interrupt_in_select) st0 "python -i"))
   /\ "" = "")
  \/ ((-1)%Z = 1%Z /\ ">>> " = ""
      /\ say (env_pty sc_interrupt_in_select)
             ("[bold red]Error running interactive command: " ++ "" ++ "[/bold red]")
         = Ok tt).
Proof.
  exact (session_stdout_is_what_it_handed_to_print (env_pty sc_interrupt_in_select) st0
           "python -i" (-1) ">>> " "" eq_refl).
Defined.

(** X3. [_execute_command] and the two directories.  A command that is
    no directory change leaves the working directory of the process and
    [self.current_dir] as they are, also through a PTY session.  A
    directory change whose [os.chdir] returns moves the process; then
    [self.current_dir] is what [os.getcwd()] answers, and when
    [os.getcwd()] raises, [self.current_dir] keeps its old value, now
    stale, and the command returns exit code 1.  So when [os.getcwd()]
    answers the directory of the process, the two directories are equal
    after every command if they were equal before. *)
Theorem execute_command_keeps_directories_in_step (env : os_env) (st : shell_state)
    (command : string) :
  let run := _execute_command env st command in
  let st' := snd (fst run) in
  (is_cd command = false ->
   proc_cwd st' = proc_cwd st /\ current_dir st' = current_dir st)
  /\ (forall d, is_cd command = true ->
        os_chdir env (proc_cwd st) (cd_target env command) = Ok d ->
        proc_cwd st' = d
        /\ match os_getcwd env d with
           | Ok cwd' =>
               current_dir st' = cwd'
               /\ fst (fst run) = Ok (0%Z, "Changed directory to " ++ cwd', "")
           | Raise e =>
               current_dir st' = current_dir st /\ fst (fst run) = except_Exception e
           end)
  /\ ((forall d, os_getcwd env d = Ok d) ->
      proc_cwd st = current_dir st -> proc_cwd st' = current_dir st').
Proof.
  cbv zeta. split; [apply RunFacts.other_command_dirs|]. split.
  - intros d Hcd Hd. unfold _execute_command. rewrite Hcd, Hd.
    destruct (os_getcwd env d); simpl; auto.
  - intros Hg E. destruct (is_cd command) eqn:Hcd.
    + unfold _execute_command. rewrite Hcd.
      destruct (os_chdir env (proc_cwd st) (cd_target env command)) as [d|e];
        [|exact E].
      rewrite (Hg d). reflexivity.
    + destruct (RunFacts.other_command_dirs env st command Hcd) as [-> ->]. exact E.
Qed.

Lemma execute_command_keeps_directories_in_step_witness :
  proc_cwd (snd (fst (_execute_command env_work st0 "cd t")))
  = current_dir (snd (fst (_execute_command env_work st0 "cd t"))).
Proof.
  exact (proj2 (proj2 (execute_command_keeps_directories_in_step env_work st0 "cd t"))
           (fun d => eq_refl) eq_refl).
Defined.

(** A directory that can be entered but not named: [os.chdir] returns
    and [os.getcwd()] raises.  The process has moved and
    [self.current_dir] has not. *)
Example getcwd_failure_leaves_current_dir_stale :
  _execute_command
    (mkEnv "/home/u" (fun p => p) (fun _ p => Ok ("/work/" ++ p))
       (fun d => Raise (Exception "[Errno 2] No such file or directory"))
       console_ok (fun _ _ => false) (fun _ _ => false)
       (fun _ _ => Ok (0%Z, "", "")) (fun d => d) (fun a => a) (pty_script env0))
    st0 "cd gone"
  = (Ok (1%Z, "", "[Errno 2] No such file or directory"),
     mkState "/work/gone" "/work" attrs0 [0; 1; 2]%Z,
     [EvChdir "gone"; EvGetcwd]).
Proof. reflexivity. Qed.

(** X4. A PTY session leaks no descriptor: when the two descriptors of
    the PTY were not open before and closing the master does not fail,
    the descriptors open after the session are those open before it,
    however the session ended. *)
Theorem session_leaks_no_descriptor (env : os_env) (st : shell_state)
    (command : string) (master_fd slave_fd pid : Z) :
  let sc := pty_script env command (current_dir st) in
  s_openpty sc = Ok (master_fd, slave_fd) ->
  s_popen sc = Ok pid ->
  s_close_slave sc = Ok tt ->
  s_close_master sc = Ok tt ->
  ~ In master_fd (open_fds st) ->
  ~ In slave_fd (open_fds st) ->
  open_fds (snd (fst (_execute_interactive_command env st command))) = open_fds st.
Proof.
  intros sc Ho Hp Hc Hm Nm Ns. unfold _execute_interactive_command.
  destruct (announce env command); [|reflexivity].
  fold sc. rewrite Ho, Hp, Hc.
  set (st2 := set_fds _ _).
  pose proof (RunFacts.session_fds env master_fd sc st2 Hm) as F.
  destruct (session env master_fd sc st2) as [[r st3] ev]. simpl in *.
  rewrite F. subst st2. cbn [open_fds set_fds].
  now apply RunFacts.close_pair.
Qed.

Lemma session_leaks_no_descriptor_witness :
  open_fds (snd (fst (_execute_interactive_command
                        (env_pty sc_interrupt_in_read) st0 "python -i")))
  = [0; 1; 2]%Z.
Proof.
  apply (session_leaks_no_descriptor (env_pty sc_interrupt_in_read) st0
           "python -i" 3 4 4242); try reflexivity;
    simpl; intros H; repeat (destruct H as [H|H]; [discriminate|]); exact H.
Defined.

(* ================================================================== *)
(** ** Further properties of the orchestrator *)
(* ================================================================== *)

Section OrchestratorResult.
Variable W : Type.
Variable execute_command : string -> W -> res result * W.
Variable confirm_ask : W -> res bool * W.
Variable handle_command_error : string -> Z -> string -> string -> W -> res unit * W.
Variable is_interactive_command : string -> W -> bool.
Variable console_print : renderable -> res unit.
Variable console_status : string -> res unit.

Lemma run_commands_counts auto_confirm total commands : forall i n w k,
  fst (fst (run_commands W execute_command handle_command_error is_interactive_command
              console_print console_status auto_confirm total commands i n w))
  = Ok k ->
  k = n + List.length
            (filter succeeded
               (snd (run_commands W execute_command handle_command_error
                       is_interactive_command console_print console_status
                       auto_confirm total commands i n w))).
Proof.
  induction commands as [|c rest IH]; intros i n w k; simpl.
  - intros [= <-]. lia.
  - destruct (before_command W is_interactive_command console_print console_status
                auto_confirm i total c w); [|discriminate].
    destruct (execute_command c w) as [[[[rc0 out] err]|e] w1]; [|discriminate].
    destruct (rc0 =? 0)%Z eqn:E.
    + destruct (after_success W is_interactive_command console_print auto_confirm c out w1);
        [|discriminate].
      specialize (IH (S i) (S n) w1 k).
      destruct (run_commands W execute_command handle_command_error
                  is_interactive_command console_print console_status
                  auto_confirm total rest (S i) (S n) w1)
        as [[r w2] l]. simpl in *. unfold succeeded at 1. simpl. rewrite E. simpl.
      intros H. rewrite (IH H). lia.
    + destruct auto_confirm; simpl.
      * specialize (IH (S i) n w1 k).
        destruct (run_commands W execute_command handle_command_error
                    is_interactive_command console_print console_status
                    true total rest (S i) n w1)
          as [[r w2] l]. simpl in *. unfold succeeded at 1. simpl. rewrite E. exact IH.
      * destruct (after_failure console_print rc0 err); [|discriminate].
        destruct (handle_command_error c rc0 out err w1) as [[u'|e] w2]; simpl;
          [|discriminate].
        unfold succeeded. simpl. rewrite E. simpl. intros [= <-]. lia.
Qed.

Lemma existsb_filter {A : Type} (f : A -> bool) (l : list A) :
  existsb f l = (0 <? List.length (filter f l))%nat.
Proof.
  induction l as [|a l IH]; simpl; [reflexivity|].
  destruct (f a); simpl; [reflexivity | exact IH].
Qed.

Lemma finish_counts auto_confirm total x b :
  fst (fst (finish W console_print auto_confirm total x)) = Ok b ->
  exists k, fst (fst x) = Ok k /\ b = (0 <? k)%nat.
Proof.
  destruct x as [[[k|e] w] l]; simpl; [|discriminate].
  destruct ((k =? total)%nat && negb auto_confirm);
    [destruct (console_print _); [|discriminate]|]; intros [= <-]; now exists k.
Qed.

(** X5. When [_execute_commands_with_confirmation] returns, it returns
    [True] exactly when some command it ran returned exit code 0, also
    when a later command failed; with no commands, or when the user
    declines, it runs nothing and returns [False]. *)
Theorem orchestrator_reports_any_success (commands : list string)
    (auto_confirm : bool) (w : W) (b : bool) :
  let run := _execute_commands_with_confirmation W execute_command confirm_ask
               handle_command_error is_interactive_command console_print
               console_status commands auto_confirm w in
  fst (fst run) = Ok b ->
  b = existsb succeeded (snd run)
  /\ (commands = [] \/ (auto_confirm = false /\ fst (confirm_ask w) = Ok false) ->
      snd run = []).
Proof.
  cbv zeta. unfold _execute_commands_with_confirmation.
  destruct commands as [|c rest].
  { destruct (console_print _); [|discriminate]. intros [= <-]; auto. }
  destruct (_display_commands console_print (c :: rest)); [|discriminate].
  destruct auto_confirm.
  - destruct (console_print _); [|discriminate].
    intros H. apply finish_counts in H as (k & Hk & ->).
    rewrite snd_finish.
    pose proof (run_commands_counts true (List.length (c :: rest)) (c :: rest) 1 0 w k Hk)
      as C.
    rewrite C at 1. rewrite existsb_filter. simpl.
    split; [reflexivity|]. intros [D|[D _]]; discriminate.
  - destruct (confirm_ask w) as [[[|]|e] w1]; lazy beta iota; [| |discriminate].
    + intros H. apply finish_counts in H as (k & Hk & ->).
      rewrite snd_finish.
      pose proof (run_commands_counts false (List.length (c :: rest)) (c :: rest) 1 0 w1
                    k Hk) as C.
      rewrite C at 1. rewrite existsb_filter. simpl.
      split; [reflexivity|]. intros [D|[_ D]]; discriminate.
    + destruct (console_print _); [|discriminate]. intros [= <-]. auto.
Qed.

End OrchestratorResult.

Lemma orchestrator_reports_any_success_witness :
  true = existsb succeeded
           (snd (_execute_commands_with_confirmation unit execute_sample confirm_yes
                   handle_nothing never_interactive console_ok status_ok
                   ["echo a"; "false"; "echo b"] false tt)).
Proof.
  exact (proj1 (orchestrator_reports_any_success unit execute_sample confirm_yes
                  handle_nothing never_interactive console_ok status_ok
                  ["echo a"; "false"; "echo b"] false tt true eq_refl)).
Defined.

(* ================================================================== *)
(** ** Further properties of the classifier and of the agent *)
(* ================================================================== *)

Module ClassifierFacts.
Import AgentQuery.

Lemma lower_app (a b : string) : lower (a ++ b) = lower a ++ lower b.
Proof. induction a as [|c a IH]; simpl; [reflexivity | now rewrite IH]. Qed.

Lemma cd_matches_nothing_holds : cd_matches_nothing = true.
Proof. vm_compute. reflexivity. Qed.

Lemma fits_cd_prefix (s : string) : String.prefix "cd " s = true -> fits cd_prefix s = true.
Proof.
  intros H. apply PyStrFacts.prefix_split in H as [t ->]. reflexivity.
Qed.

Lemma normalized_cd (command : string) :
  startswith (strip command) "cd " = true ->
  String.prefix "cd " (strip (lower command)) = true.
Proof.
  unfold startswith. intros H. apply PyStrFacts.prefix_split in H as [t Ht].
  rewrite PyStrFacts.strip_lower, Ht, lower_app.
  apply PyStrFacts.prefix_split. now exists (lower t).
Qed.

(** Nothing of the classifier matches a normal form that starts with
    ["cd "]. *)
Lemma cd_unmatched (s : string) :
  String.prefix "cd " s = true ->
  first_rule _init_safety_rules s = None
  /\ existsb (fun p => re_match p s) safe_patterns = false.
Proof.
  intros H. apply fits_cd_prefix in H.
  pose proof cd_matches_nothing_holds as C. unfold cd_matches_nothing in C.
  apply andb_true_iff in C as [C1 C2].
  rewrite forallb_forall in C1. rewrite forallb_forall in C2. split.
  - apply AgentFacts.first_rule_none. intros r Hr.
    destruct (re_match (pattern r) s) eqn:E; [|reflexivity]. exfalso.
    apply ReFacts.re_match_fits in E.
    exact (ReFacts.clash_spec _ _ _ (C1 r Hr) H E).
  - destruct (existsb _ safe_patterns) eqn:E; [|reflexivity]. exfalso.
    apply existsb_exists in E as (p & Hp & E). apply ReFacts.re_match_fits in E.
    exact (ReFacts.clash_spec _ _ _ (C2 p Hp) H E).
Qed.

Lemma cd_classification (command : string) :
  startswith (strip command) "cd " = true ->
  check_command_safety command = (true, false, "Requires user confirmation").
Proof.
  intros H. apply normalized_cd, cd_unmatched in H as [F S].
  unfold check_command_safety, check_command_safety_with. now rewrite F, S.
Qed.

(** [auto_execute_safe_command] on any command. *)
Lemma auto_execute_fails (env : os_env) (cwd command : string) :
  exists msg,
    auto_execute_safe_command env cwd command = (Ok (1%Z, "", msg), cwd, [])
    /\ msg <> "".
Proof.
  unfold auto_execute_safe_command.
  destruct (startswith (strip command) "cd ") eqn:Hcd.
  - rewrite (cd_classification command Hcd). simpl.
    eexists. split; [reflexivity | discriminate].
  - destruct (check_command_safety command) as [[is_safe auto_exec] why].
    destruct is_safe, auto_exec; simpl; eexists; (split; [reflexivity | discriminate]).
Qed.

Lemma process_command_fails (env : os_env) (cwd command : string) :
  exists entry,
    process_command env cwd command = (Ok entry, cwd, [])
    /\ ar_command entry = command /\ ar_success entry = false
    /\ ar_needs_confirmation entry = negb (snd (fst (check_command_safety command))).
Proof.
  unfold process_command.
  destruct (auto_execute_fails env cwd command) as (msg & E & _). rewrite E.
  destruct (check_command_safety command) as [[is_safe auto_exec] why].
  destruct auto_exec; simpl; eexists; repeat split.
Qed.

Lemma agent_loop_fails (env : os_env) (cwd : string) (commands : list string) :
  exists executed results,
    agent_loop env cwd commands = (Ok (executed, results, []), cwd, [])
    /\ map ar_command results = commands
    /\ Forall (fun entry => ar_success entry = false) results
    /\ executed = filter (fun c => snd (fst (check_command_safety c))) commands.
Proof.
  induction commands as [|c rest IH]; simpl.
  - exists [], []. repeat split; constructor.
  - destruct (process_command_fails env cwd c) as (entry & E & Hc & Hs & Hn).
    destruct IH as (ex & rs & L & Hm & Hf & He). rewrite E, L, Hs, Hn.
    destruct (snd (fst (check_command_safety c))); simpl;
      eexists; eexists; (split; [reflexivity|]); simpl;
      (split; [now rewrite Hc, Hm|]); (split; [now constructor | now rewrite He]).
Qed.

Lemma matches_any_post b r mid post :
  matches b r mid post -> no_eol r = true -> forall post', matches b r mid post'.
Proof.
  induction 1; simpl; intros N post'; try discriminate;
    try (apply andb_true_iff in N as [N1 N2]).
  - constructor.
  - now constructor.
  - constructor.
  - constructor; auto.
  - apply MAltL; auto.
  - apply MAltR; auto.
  - constructor.
  - constructor; auto.
Qed.

Lemma re_match_extends (p s t : string) :
  pattern_no_eol p = true -> re_match p s = true -> re_match p (s ++ t) = true.
Proof.
  unfold pattern_no_eol. intros N H.
  apply ReFacts.re_match_spec in H as (r & C & mid & post & -> & H). rewrite C in N.
  apply ReFacts.re_match_spec. exists r. split; [exact C|].
  exists mid, (post ++ t). split; [apply PyStrFacts.append_assoc|].
  now apply (matches_any_post _ _ _ _ H N).
Qed.

Lemma re_match_empty_any (p s : string) :
  pattern_no_eol p = true -> re_match p "" = true -> re_match p s = true.
Proof. intros N H. exact (re_match_extends p "" s N H). Qed.

Lemma lstrip_app (a b : string) : lstrip a <> "" -> lstrip (a ++ b) = lstrip a ++ b.
Proof.
  induction a as [|c a IH]; simpl; [congruence|].
  destruct (is_space c); [exact IH | reflexivity].
Qed.

Lemma rstrip_app (a : string) : forall b, exists w, rstrip (a ++ b) = rstrip a ++ w.
Proof.
  induction a as [|c a IH]; intros b; simpl; [now exists (rstrip b)|].
  destruct (IH b) as [w Hw]. rewrite Hw.
  destruct (rstrip a) as [|d r]; simpl.
  - destruct w as [|x w].
    + destruct (is_space c); now exists "".
    + destruct (is_space c); [now exists (String c (String x w)) | now exists (String x w)].
  - now exists w.
Qed.

(** The normal form of a longer command starts with the normal form of
    the command, unless that is empty. *)
Lemma normalize_app (c t : string) :
  strip (lower c) <> "" -> exists w, strip (lower (c ++ t)) = strip (lower c) ++ w.
Proof.
  unfold strip. intros H. rewrite lower_app, lstrip_app.
  - apply rstrip_app.
  - intros E. rewrite E in H. now apply H.
Qed.

(** A rule without [$] that matches a command matches every command it
    is the start of. *)
Lemma rule_match_extends (p c t : string) :
  pattern_no_eol p = true ->
  re_match p (strip (lower c)) = true ->
  re_match p (strip (lower (c ++ t))) = true.
Proof.
  intros N H. destruct (strip (lower c)) eqn:E.
  - now apply re_match_empty_any.
  - destruct (normalize_app c t) as [w Hw]; [rewrite E; discriminate|].
    rewrite Hw, E. apply re_match_extends; [exact N | exact H].
Qed.

Lemma deny_rules_have_no_eol :
  forallb (fun rule => allowed rule || pattern_no_eol (pattern rule)) _init_safety_rules
  = true.
Proof. vm_compute. reflexivity. Qed.

End ClassifierFacts.

(** X6. A command that, stripped, starts with ["cd "] (in any case) is
    never blocked and never auto-executable: the classifier answers
    [(True, False, "Requires user confirmation")]. *)
Theorem cd_always_requires_confirmation (command : string) :
  startswith (strip (lower command)) "cd " = true ->
  check_command_safety command = (true, false, "Requires user confirmation").
Proof.
  unfold startswith. intros H. apply ClassifierFacts.cd_unmatched in H as [F S].
  unfold check_command_safety, check_command_safety_with. now rewrite F, S.
Qed.

Lemma cd_always_requires_confirmation_witness :
  check_command_safety "  CD /etc && rm -rf x" = (true, false, "Requires user confirmation").
Proof.
  apply (cd_always_requires_confirmation "  CD /etc && rm -rf x"). reflexivity.
Defined.

(** X7. [auto_execute_safe_command] never runs anything: for every
    command it returns exit code 1 with an error message that is not
    empty, makes no call on the operating system and leaves the working
    directory alone; its directory-change branch is dead. *)
Theorem auto_execute_safe_command_never_runs (env : os_env) (cwd command : string) :
  exists msg,
    auto_execute_safe_command env cwd command = (Ok (1%Z, "", msg), cwd, [])
    /\ msg <> "".
Proof. apply ClassifierFacts.auto_execute_fails. Qed.

(** X8. [process_agent_query] never answers an ['agent_response']: with
    suggested commands it answers ['confirmation_needed'] with one result
    per command, in order, none of them a success, and without any call
    on the operating system; with none it answers ['response']. *)
Theorem agent_query_never_executes (env : os_env)
    (interpret : string -> list string -> list string -> string)
    (cwd query message : string) (suggested_commands : list string) :
  exists reply,
    AgentQuery.process_agent_query env interpret cwd query message suggested_commands
    = (Ok reply, cwd, [])
    /\ (suggested_commands = [] -> reply = AgentQuery.Response message)
    /\ (suggested_commands <> [] ->
        exists results,
          reply = AgentQuery.ConfirmationNeeded message suggested_commands results
          /\ map ar_command results = suggested_commands
          /\ Forall (fun entry => ar_success entry = false) results).
Proof.
  unfold AgentQuery.process_agent_query.
  destruct suggested_commands as [|c rest].
  - eexists. split; [reflexivity|]. split; [reflexivity | congruence].
  - destruct (ClassifierFacts.agent_loop_fails env cwd (c :: rest))
      as (ex & rs & L & Hm & Hf & _).
    rewrite L. eexists. split; [reflexivity|]. split; [discriminate|].
    intros _. exists rs. auto.
Qed.

(** X9. A blocked command stays blocked whatever is appended to it: if
    the normal form of a command matches a rule of the table with
    [allowed = False], every command that starts with it is classified
    [(False, False, reason)] with the reason of that rule. *)
Theorem blocked_stays_blocked (command suffix : string) (rule : SafetyRule) :
  In rule _init_safety_rules ->
  allowed rule = false ->
  re_match (pattern rule) (strip (lower command)) = true ->
  check_command_safety (command ++ suffix) = (false, false, reason rule).
Proof.
  intros Hin Hdeny Hm.
  pose proof ClassifierFacts.deny_rules_have_no_eol as N.
  rewrite forallb_forall in N. specialize (N rule Hin). rewrite Hdeny in N. simpl in N.
  rewrite (AgentFacts.check_table_rule rule (command ++ suffix) Hin
             (ClassifierFacts.rule_match_extends _ _ _ N Hm)).
  unfold outcome. now rewrite Hdeny, andb_false_r.
Qed.

Lemma blocked_stays_blocked_witness :
  check_command_safety ("sudo ls" ++ " # harmless, please run")
  = (false, false, "Elevated privileges not allowed").
Proof.
  apply (blocked_stays_blocked "sudo ls" " # harmless, please run"
           (mkRule "^sudo\s+" false "Elevated privileges not allowed" false)).
  - vm_compute. tauto.
  - reflexivity.
  - vm_compute. reflexivity.
Defined.

(** X10. Auto-approval extends to whatever is chained behind the
    command: if the normal form of a command matches an
    allow-and-auto-run rule whose pattern has no [$], every command that
    starts with it is classified [(True, True, reason)] with the reason
    of that rule. *)
Theorem approval_extends_to_suffix (command suffix : string) (rule : SafetyRule) :
  In rule _init_safety_rules ->
  allowed rule = true -> auto_execute rule = true ->
  pattern_no_eol (pattern rule) = true ->
  re_match (pattern rule) (strip (lower command)) = true ->
  check_command_safety (command ++ suffix) = (true, true, reason rule).
Proof.
  intros Hin Ha Hx N Hm.
  rewrite (AgentFacts.check_table_rule rule (command ++ suffix) Hin
             (ClassifierFacts.rule_match_extends _ _ _ N Hm)).
  unfold outcome. now rewrite Ha, Hx.
Qed.

Lemma approval_extends_to_suffix_witness :
  check_command_safety ("ls -la" ++ "; rm -rf ~") = (true, true, "Safe file listing").
Proof.
  apply (approval_extends_to_suffix "ls -la" "; rm -rf ~"
           (mkRule "^ls\s" true "Safe file listing" true)).
  - vm_compute. tauto.
  - reflexivity.
  - reflexivity.
  - vm_compute. reflexivity.
  - vm_compute. reflexivity.
Defined.

Lemma agent_query_never_executes_witness :
  exists results,
    AgentQuery.process_agent_query env0 (fun _ _ _ => "") "/" "big files" "Looking"
      ["ls -la"; "rm -rf /tmp/x"]
    = (Ok (AgentQuery.ConfirmationNeeded "Looking" ["ls -la"; "rm -rf /tmp/x"] results),
       "/", [])
    /\ Forall (fun entry => ar_success entry = false) results.
Proof.
  destruct (agent_query_never_executes env0 (fun _ _ _ => "") "/" "big files" "Looking"
              ["ls -la"; "rm -rf /tmp/x"]) as (reply & E & _ & H).
  destruct (H ltac:(discriminate)) as (results & -> & _ & F).
  exists results. split; [exact E | exact F].
Defined.

(* ================================================================== *)
(** ** The input of the main loop and the prompt *)
(* ================================================================== *)

Module InputFacts.
Import ShellInput.

Lemma endswith_split (s p : string) : endswith s p = true -> exists a, s = a ++ p.
Proof.
  induction s as [|c s IH]; intros H.
  - exists "". destruct p; [reflexivity | discriminate].
  - cbn [endswith] in H. apply orb_true_iff in H as [H|H].
    + apply String.eqb_eq in H. now exists "".
    + destruct (IH H) as [a ->]. now exists (String c a).
Qed.

Lemma endswith_app (a p : string) : endswith (a ++ p) p = true.
Proof.
  induction a as [|c a IH]; simpl.
  - destruct p; simpl; [reflexivity|]. now rewrite Ascii.eqb_refl, String.eqb_refl.
  - rewrite IH. apply orb_true_r.
Qed.

Lemma substring_app (a b : string) : substring 0 (String.length a) (a ++ b) = a.
Proof.
  induction a as [|c a IH]; simpl; [now destruct b | now rewrite IH].
Qed.

Lemma drop_app (a b : string) : drop (String.length a) (a ++ b) = b.
Proof. induction a as [|c a IH]; simpl; auto. Qed.

Lemma length_drop (n : nat) : forall s, String.length (drop n s) = String.length s - n.
Proof.
  induction n as [|n IH]; intros s; simpl; [lia|].
  destruct s as [|c s]; simpl; auto.
Qed.

Lemma last_char_app (a b : string) : b <> "" -> last_char (a ++ b) = last_char b.
Proof.
  intros H. induction a as [|c a IH]; simpl; [reflexivity|].
  rewrite IH. destruct (a ++ b) eqn:E; [|reflexivity].
  apply PyStrFacts.append_is_empty in E as [_ ->]. contradiction.
Qed.

Lemma lstrip_keeps_suffix (a b : string) :
  no_leading_space b -> exists a', lstrip (a ++ b) = a' ++ b.
Proof.
  intros H. induction a as [|c a IH]; simpl.
  - exists "". simpl. now apply PyStrFacts.lstrip_fixed.
  - destruct (is_space c); [exact IH | now exists (String c a)].
Qed.

Lemma rstrip_keeps_q (a : string) : rstrip (a ++ "-q") = a ++ "-q".
Proof.
  induction a as [|c a IH]; [reflexivity|].
  change (rstrip (String c a ++ "-q"))
    with (match rstrip (a ++ "-q") with
          | EmptyString => if is_space c then EmptyString else String c EmptyString
          | String x r => String c (String x r)
          end).
  rewrite IH. destruct a; reflexivity.
Qed.

(** The normal form of an input that ends with [-q] ends with [-q]. *)
Lemma normalized_question (a : string) :
  exists a', lower (strip (a ++ "-q")) = a' ++ "-q".
Proof.
  unfold strip. destruct (lstrip_keeps_suffix a "-q") as [a' E]; [reflexivity|].
  rewrite E, rstrip_keeps_q, ClassifierFacts.lower_app. now exists (lower a').
Qed.

Lemma at_end_cases (post : string) :
  at_end post = true -> post = "" \/ post = String newline "".
Proof.
  destruct post as [|c [|d post]]; simpl; auto; [|discriminate].
  intros H. apply Ascii.eqb_eq in H. subst. auto.
Qed.

(** The pattern of agent queries matches no string that ends with
    [-q]. *)
Lemma agent_pattern_rejects_q (a : string) :
  re_match agent_suffix_pattern (a ++ "-q") = false.
Proof.
  destruct (re_match agent_suffix_pattern (a ++ "-q")) eqn:H; [|reflexivity]. exfalso.
  apply ReFacts.re_match_spec in H as (r & C & mid & post & E & H).
  vm_compute in C. injection C as <-.
  inversion H as [| | | |? ? ? m1 r1 ? H1 H2| | | |]; subst; clear H.
  inversion H2 as [| | | |? ? ? m2 r2 ? H3 H4| | | |]; subst; clear H2.
  inversion H4 as [| | | |? ? ? m3 m4 ? H5 H6| | | |]; subst; clear H4.
  inversion H3 as [|? ? c2 ? M2| | | | | | |]; subst; clear H3.
  inversion H5 as [|? ? c3 ? M3| | | | | | |]; subst; clear H5.
  inversion H6 as [| | |? ? A| | | | |]; subst; clear H6.
  cbn [cls_mem] in M3. apply Ascii.eqb_eq in M3. subst c3.
  assert (L : last_char (a ++ "-q") = Some "q"%char)
    by (rewrite last_char_app; [reflexivity | discriminate]).
  rewrite E in L.
  apply at_end_cases in A as [->| ->].
  - rewrite PyStrFacts.append_empty_r in L.
    rewrite last_char_app in L by discriminate.
    rewrite last_char_app in L by discriminate. simpl in L. discriminate.
  - rewrite last_char_app in L by discriminate. vm_compute in L. discriminate.
Qed.

Lemma question_is_no_agent_query (user_input : string) :
  _is_question user_input = true -> is_agent_query user_input = false.
Proof.
  unfold _is_question, is_agent_query. intros H.
  apply endswith_split in H as [a ->].
  destruct (normalized_question a) as [a' ->]. apply agent_pattern_rejects_q.
Qed.

Lemma strip_bang_not_empty (c : string) : is_empty (strip (String "!" c)) = false.
Proof.
  unfold strip. change (lstrip (String "!" c)) with (String "!"%char c).
  simpl. destruct (rstrip c); reflexivity.
Qed.

Lemma replace_first_at_start (old new s : string) :
  String.prefix old s = true ->
  replace_first old new s = new ++ drop (String.length old) s.
Proof. intros H. destruct s; cbn [replace_first]; now rewrite H. Qed.

Lemma length_take_last (n : nat) (s : string) :
  n <= String.length s -> String.length (take_last n s) = n.
Proof. intros H. unfold take_last. rewrite length_drop. lia. Qed.

Lemma prompt_directory_length (home current_dir : string) :
  String.length (prompt_directory home current_dir) <= 30.
Proof.
  unfold prompt_directory.
  set (current := if startswith current_dir home then _ else _).
  destruct (30 <? String.length current)%nat eqn:E.
  - apply Nat.ltb_lt in E. simpl. rewrite length_take_last; lia.
  - apply Nat.ltb_ge in E. exact E.
Qed.

End InputFacts.

(** X11. The agent mode cannot be reached: the loop of [run] hands an
    input to [_handle_agent_query] only when it ends with [-q], and no
    such input matches the pattern of agent queries, which asks for [-a]
    at the end; so no input is routed to the agent. *)
Theorem agent_mode_is_unreachable (user_input : string) :
  (ShellInput._is_question user_input = true ->
   ShellInput.is_agent_query user_input = false)
  /\ forall query, ShellInput.route_input user_input <> ShellInput.AgentQuery query.
Proof.
  split; [apply InputFacts.question_is_no_agent_query|].
  intros query. unfold ShellInput.route_input.
  destruct (is_empty (strip user_input)); [discriminate|].
  destruct (existsb _ _); [discriminate|].
  destruct (String.eqb user_input "show_thinking"); [discriminate|].
  destruct (startswith user_input "save_mem"); [discriminate|].
  destruct (existsb _ _); [discriminate|].
  destruct (ShellInput._is_direct_command user_input); [discriminate|].
  destruct (ShellInput._is_question user_input) eqn:Q; [|discriminate].
  now rewrite (InputFacts.question_is_no_agent_query user_input Q).
Qed.

Lemma agent_mode_is_unreachable_witness :
  ShellInput.is_agent_query "find the largest files -a -q" = false.
Proof.
  exact (proj1 (agent_mode_is_unreachable "find the largest files -a -q") eq_refl).
Defined.

(** X12. An input that starts with [!] is always taken as a direct
    command, and the command is the text behind the marker when that
    text has no [!] and no white space at its ends.  The branch first
    shows a line with the command as markup: when the console shows it,
    the calls and the state afterwards are those of [_execute_command]
    on the command; when the console refuses it, the exception leaves
    the branch and nothing is executed. *)
Theorem bang_prefix_runs_the_rest (env : os_env) (st : shell_state) (command : string) :
  let cleaned := ShellInput._clean_direct_command command in
  let line := "[dim]Executing:[/dim] [bold]" ++ cleaned ++ "[/bold]" in
  ShellInput.route_input ("!" ++ command) = ShellInput.Direct cleaned
  /\ (ShellInput.strip_chars "! " command = command -> strip command = command ->
      ShellInput.route_input ("!" ++ command) = ShellInput.Direct command)
  /\ (say env line = Ok tt ->
      snd (ShellInput.run_direct_command env st ("!" ++ command))
      = snd (_execute_command env st cleaned)
      /\ snd (fst (ShellInput.run_direct_command env st ("!" ++ command)))
         = snd (fst (_execute_command env st cleaned)))
  /\ (forall e, say env line = Raise e ->
      ShellInput.run_direct_command env st ("!" ++ command) = (Raise e, st, [])).
Proof.
  cbv zeta.
  assert (R : ShellInput.route_input ("!" ++ command)
              = ShellInput.Direct (ShellInput._clean_direct_command command)).
  { unfold ShellInput.route_input. simpl append.
    rewrite InputFacts.strip_bang_not_empty.
    replace (ShellInput._is_direct_command (String "!" command)) with true
      by (unfold ShellInput._is_direct_command, startswith; simpl; now destruct command).
    reflexivity. }
  assert (C : ShellInput._clean_direct_command ("!" ++ command)
              = ShellInput._clean_direct_command command) by reflexivity.
  split; [exact R|]. split.
  - intros H1 H2. rewrite R.
    unfold ShellInput._clean_direct_command. now rewrite H1, H2.
  - unfold ShellInput.run_direct_command. rewrite C. split.
    + intros ->.
      destruct (_execute_command env st (ShellInput._clean_direct_command command))
        as [[r st'] ev]. split; reflexivity.
    + intros e ->. reflexivity.
Qed.

Lemma bang_prefix_runs_the_rest_witness :
  snd (ShellInput.run_direct_command env_work st0 ("!" ++ "cd t")) = [EvChdir "t"; EvGetcwd]
  /\ snd (fst (ShellInput.run_direct_command env_work st0 ("!" ++ "cd t")))
     = mkState "/work/t" "/work/t" attrs0 [0; 1; 2]%Z.
Proof.
  exact (proj1 (proj2 (proj2 (bang_prefix_runs_the_rest env_work st0 "cd t"))) eq_refl).
Defined.

(** A direct command with a closing tag: the console refuses the line
    that names it, and the command is not run. *)
Example refused_direct_command_is_not_run :
  ShellInput.run_direct_command (env_pty sc_interrupt_in_select) st0 "!grep [/x] notes"
  = (Raise (Exception "closing tag '[/x]' doesn't match any open tag"), st0, []).
Proof. reflexivity. Qed.

(** X13. Any text followed by [-q] is a question, and the question asked
    is that text, trimmed. *)
Theorem question_marker_round_trip (question : string) :
  ShellInput._is_question (question ++ "-q") = true
  /\ ShellInput._clean_question (question ++ "-q") = strip question.
Proof.
  split; [apply InputFacts.endswith_app|].
  unfold ShellInput._clean_question, ShellInput.drop_last.
  rewrite PyStrFacts.length_append. simpl String.length.
  replace (String.length question + 2 - 2) with (String.length question) by lia.
  now rewrite InputFacts.substring_app.
Qed.

(** X14. The directory shown in the prompt has at most 30 characters, so
    the prompt has at most 48 besides the name of the environment; any
    path that starts with the text of the home directory is shown with
    [~] in place of that text (also a sibling such as [/home/user2] for
    the home [/home/u]), and a path of more than 30 characters as [...]
    and its last 27. *)
Theorem prompt_directory_is_bounded (environ : string -> option string)
    (home current_dir : string) :
  String.length (ShellInput.prompt_directory home current_dir) <= 30
  /\ String.length (ShellInput._get_shell_prompt environ home current_dir)
     <= String.length (ShellInput.env_name environ) + 48
  /\ (forall rest, current_dir = home ++ rest -> String.length rest < 30 ->
        ShellInput.prompt_directory home current_dir = "~" ++ rest)
  /\ (startswith current_dir home = false -> 30 < String.length current_dir ->
        ShellInput.prompt_directory home current_dir
        = "..." ++ ShellInput.take_last 27 current_dir).
Proof.
  pose proof (InputFacts.prompt_directory_length home current_dir) as L.
  split; [exact L|]. split; [|split].
  - unfold ShellInput._get_shell_prompt.
    rewrite !PyStrFacts.length_append. simpl String.length. lia.
  - intros rest -> Hr. unfold ShellInput.prompt_directory.
    assert (P : String.prefix home (home ++ rest) = true)
      by (apply PyStrFacts.prefix_split; now exists rest).
    unfold startswith. rewrite P, (InputFacts.replace_first_at_start _ _ _ P),
      InputFacts.drop_app.
    replace (30 <? String.length ("~" ++ rest))%nat with false; [reflexivity|].
    symmetry. apply Nat.ltb_ge. simpl. lia.
  - intros Hs Hl. unfold ShellInput.prompt_directory. rewrite Hs.
    apply Nat.ltb_lt in Hl. now rewrite Hl.
Qed.

Lemma prompt_directory_is_bounded_witness :
  ShellInput.prompt_directory "/home/u" "/home/user2/projects" = "~ser2/projects".
Proof.
  apply (proj1 (proj2 (proj2 (prompt_directory_is_bounded (fun _ => None)
                                "/home/u" "/home/user2/projects")))
           "ser2/projects"); [reflexivity | simpl; lia].
Defined.

(* ================================================================== *)
(** ** Properties of the AI core *)
(* ================================================================== *)

Module CoreFacts.
Import AICore.

Lemma prefix_app (p s b : string) :
  String.prefix p s = true -> String.prefix p (s ++ b) = true.
Proof.
  intros H. apply PyStrFacts.prefix_split in H as [t ->].
  apply PyStrFacts.prefix_split. exists (t ++ b). apply PyStrFacts.append_assoc.
Qed.

Lemma contains_app_r (p s b : string) :
  contains p s = true -> contains p (s ++ b) = true.
Proof.
  induction s as [|c s IH]; intros H.
  - destruct p; [now destruct b | discriminate].
  - cbn [contains] in H. apply orb_true_iff in H as [H|H].
    + apply (prefix_app _ _ b) in H. simpl append in *. cbn [contains]. now rewrite H.
    + simpl append. cbn [contains]. rewrite (IH H). apply orb_true_r.
Qed.

Lemma contains_app_l (p a s : string) :
  contains p s = true -> contains p (a ++ s) = true.
Proof.
  intros H. induction a as [|c a IH]; [exact H|].
  simpl append. cbn [contains]. rewrite IH. apply orb_true_r.
Qed.

Lemma contains_find (p s : string) :
  contains p s = match find p s with Some _ => true | None => false end.
Proof.
  induction s as [|c s IH]; cbn [contains find].
  - destruct (String.prefix p ""); reflexivity.
  - destruct (String.prefix p (String c s)); [reflexivity|]. simpl. rewrite IH.
    destruct (find p s); reflexivity.
Qed.

Lemma find_eq (sub s : string) :
  find sub s = if String.prefix sub s then Some 0
               else match s with
                    | EmptyString => None
                    | String _ s' => option_map S (find sub s')
                    end.
Proof. destruct s; reflexivity. Qed.

Lemma prefix_cons (a b : ascii) (p s : string) :
  String.prefix (String a p) (String b s)
  = if ascii_dec a b then String.prefix p s else false.
Proof. reflexivity. Qed.

Lemma prefix_backtick_app (sub s t : string) (c : ascii) :
  contains "`" (String c s) = false ->
  String.prefix (String "`" sub) (String c (s ++ t)) = false.
Proof.
  intros H. cbn [contains] in H. apply orb_false_iff in H as [H _].
  rewrite prefix_cons in *. destruct (ascii_dec "`" c); [|reflexivity].
  destruct s; discriminate.
Qed.

Lemma prefix_backtick (sub s : string) (c : ascii) :
  contains "`" (String c s) = false -> String.prefix (String "`" sub) (String c s) = false.
Proof.
  intros H. rewrite <- (PyStrFacts.append_empty_r s). now apply prefix_backtick_app.
Qed.

(** In a text without backtick, a string that starts with a backtick
    is found right behind the text and not before. *)
Lemma find_behind (pre sub rest : string) :
  contains "`" pre = false ->
  find (String "`" sub) (pre ++ String "`" sub ++ rest) = Some (String.length pre).
Proof.
  intros H. induction pre as [|c pre IH].
  - change ("" ++ String "`" sub ++ rest) with (String "`" sub ++ rest).
    rewrite find_eq.
    replace (String.prefix (String "`" sub) (String "`" sub ++ rest)) with true;
      [reflexivity|].
    symmetry. apply PyStrFacts.prefix_split. now exists rest.
  - rewrite find_eq.
    change (String c pre ++ String "`" sub ++ rest)
      with (String c (pre ++ String "`" sub ++ rest)).
    rewrite (prefix_backtick_app sub pre _ c H).
    cbn [contains] in H. apply orb_false_iff in H as [_ H].
    now rewrite (IH H).
Qed.

Lemma find_absent (sub s : string) :
  contains "`" s = false -> find (String "`" sub) s = None.
Proof.
  induction s as [|c s IH]; intros H; [reflexivity|].
  rewrite find_eq, (prefix_backtick sub s c H).
  cbn [contains] in H. apply orb_false_iff in H as [_ H].
  now rewrite (IH H).
Qed.

Lemma substring_behind (a b : string) (n : nat) :
  substring (String.length a) n (a ++ b) = substring 0 n b.
Proof. induction a as [|c a IH]; simpl; [reflexivity | exact IH]. Qed.

Lemma fence_found (pre rest : string) :
  contains "`" pre = false ->
  contains fence (pre ++ fence ++ rest) = true
  /\ find fence (pre ++ fence ++ rest) = Some (String.length pre).
Proof.
  intros H. pose proof (find_behind pre "``json" rest H) as F.
  split; [|exact F]. rewrite contains_find. unfold fence. now rewrite F.
Qed.

Lemma drop_behind_fence (pre rest : string) :
  drop (String.length pre + 7) (pre ++ fence ++ rest) = rest.
Proof.
  replace (pre ++ fence ++ rest) with ((pre ++ fence) ++ rest)
    by apply PyStrFacts.append_assoc.
  replace (String.length pre + 7) with (String.length (pre ++ fence))
    by (rewrite PyStrFacts.length_append; reflexivity).
  apply InputFacts.drop_app.
Qed.

Lemma substring_behind_fence (pre rest : string) (n : nat) :
  substring (String.length pre + 7) n (pre ++ fence ++ rest) = substring 0 n rest.
Proof.
  replace (pre ++ fence ++ rest) with ((pre ++ fence) ++ rest)
    by apply PyStrFacts.append_assoc.
  replace (String.length pre + 7) with (String.length (pre ++ fence))
    by (rewrite PyStrFacts.length_append; reflexivity).
  apply substring_behind.
Qed.

(** The block between the fences. *)
Lemma fenced_json_closed (pre body post : string) :
  contains "`" pre = false -> contains "`" body = false ->
  fenced_json (pre ++ fence ++ body ++ "```" ++ post) = strip body.
Proof.
  intros Hp Hb. unfold fenced_json.
  destruct (fence_found pre (body ++ "```" ++ post) Hp) as [_ F]. rewrite F.
  unfold find_from. rewrite drop_behind_fence.
  rewrite (find_behind body "``" post Hb). simpl option_map. unfold slice.
  replace (String.length pre + 7 + String.length body - (String.length pre + 7))
    with (String.length body) by lia.
  now rewrite substring_behind_fence, InputFacts.substring_app.
Qed.

(** The block behind a fence that is not closed: its last character is
    lost. *)
Lemma fenced_json_open (pre body : string) :
  contains "`" pre = false -> contains "`" body = false ->
  fenced_json (pre ++ fence ++ body) = strip (ShellInput.drop_last 1 body).
Proof.
  intros Hp Hb. unfold fenced_json.
  destruct (fence_found pre body Hp) as [_ F]. rewrite F.
  unfold find_from. rewrite drop_behind_fence.
  rewrite (find_absent "``" body Hb). simpl option_map. unfold slice.
  rewrite substring_behind_fence. unfold ShellInput.drop_last.
  rewrite !PyStrFacts.length_append. unfold fence at 1. simpl String.length.
  replace (String.length pre + (7 + String.length body) - 1 - (String.length pre + 7))
    with (String.length body - 1) by lia.
  reflexivity.
Qed.

Lemma last20 {A : Type} (l : list A) (x : A) :
  add_to_temp_memory (skipn (List.length l - 20) l) x
  = skipn (List.length (l ++ [x]) - 20) (l ++ [x]).
Proof.
  unfold add_to_temp_memory.
  set (k := List.length l - 20).
  assert (E : (skipn k l ++ [x])%list = skipn k (l ++ [x])).
  { rewrite skipn_app. replace (k - List.length l) with 0 by (subst k; lia).
    reflexivity. }
  rewrite E, length_skipn, length_app. simpl List.length.
  destruct (20 <? List.length l + 1 - k)%nat eqn:Q.
  - apply Nat.ltb_lt in Q. rewrite skipn_skipn. f_equal. subst k. lia.
  - apply Nat.ltb_ge in Q. f_equal. subst k. lia.
Qed.

End CoreFacts.

(** X15. [_requires_thinking] does not depend on case and is not undone
    by context: when an input asks for thinking, so does every input
    that contains it, whatever stands before and behind (an indicator is
    found inside longer words too). *)
Theorem thinking_is_triggered_in_context (before user_input after : string) :
  AICore._requires_thinking (lower user_input) = AICore._requires_thinking user_input
  /\ (AICore._requires_thinking user_input = true ->
      AICore._requires_thinking (before ++ user_input ++ after) = true).
Proof.
  unfold AICore._requires_thinking. split.
  - now rewrite PyStrFacts.lower_idem.
  - intros H. apply existsb_exists in H as (indicator & Hin & H).
    apply existsb_exists. exists indicator. split; [exact Hin|].
    rewrite !ClassifierFacts.lower_app.
    now apply CoreFacts.contains_app_l, CoreFacts.contains_app_r.
Qed.

Lemma thinking_is_triggered_in_context_witness :
  AICore._requires_thinking ("print the " ++ "Findings" ++ " of the audit") = true.
Proof.
  apply (proj2 (thinking_is_triggered_in_context "print the " "Findings" " of the audit")).
  reflexivity.
Defined.

(** X16. The exploration of the thinking mode changes no directory and
    does not stop at a failure: every call it makes starts a shell in
    the directory it was given; when no interrupt ends it, it has
    started one for each command that is not a directory change, in
    order, and recorded one result and one thinking step per command. *)
Theorem exploration_runs_every_command (env : os_env)
    (user_input current_dir : string) (commands : list string) :
  let run := AICore.explore env user_input current_dir commands in
  Forall (fun e => exists cmd, e = EvSubprocessShell cmd current_dir) (snd run)
  /\ (forall results, fst (fst run) = Ok results ->
        map AICore.er_command results = commands
        /\ map AICore.ts_command (snd (fst run)) = commands
        /\ snd run = map (fun cmd => EvSubprocessShell cmd current_dir)
                       (filter (fun cmd => negb (startswith (strip cmd) "cd ")) commands)).
Proof.
  cbv zeta. induction commands as [|c rest IH]; simpl.
  - split; [constructor|]. intros results [= <-]. auto.
  - unfold AICore._execute_thinking_command.
    destruct IH as [IH1 IH2].
    destruct (startswith (strip c) "cd ") eqn:Hcd; simpl.
    + destruct (AICore.explore env user_input current_dir rest) as [[r steps] ev].
      simpl in *. split; [exact IH1|].
      intros results H. destruct r as [rs|e]; [|discriminate].
      injection H as <-. destruct (IH2 rs eq_refl) as (A & B & C).
      simpl. now rewrite A, B, C.
    + destruct (subprocess_shell env c current_dir) as [[[rc out] err]|[|msg]]; simpl.
      * destruct (AICore.explore env user_input current_dir rest) as [[r steps] ev].
        simpl in *. split; [constructor; eauto|].
        intros results H. destruct r as [rs|e]; [|discriminate].
        injection H as <-. destruct (IH2 rs eq_refl) as (A & B & C).
        simpl. now rewrite A, B, C.
      * split; [repeat constructor; eauto | discriminate].
      * destruct (AICore.explore env user_input current_dir rest) as [[r steps] ev].
        simpl in *. split; [constructor; eauto|].
        intros results H. destruct r as [rs|e]; [|discriminate].
        injection H as <-. destruct (IH2 rs eq_refl) as (A & B & C).
        simpl. now rewrite A, B, C.
Qed.

(** X17. The temporary memory holds the last 20 interactions: after any
    number of [add_to_temp_memory] from an empty memory it is the list of
    all interactions without its first [n - 20], and never longer than
    20. *)
Theorem temp_memory_keeps_last_20 {A : Type} (interactions : list A) :
  fold_left AICore.add_to_temp_memory interactions []
  = skipn (List.length interactions - 20) interactions
  /\ List.length (fold_left AICore.add_to_temp_memory interactions []) <= 20.
Proof.
  assert (E : fold_left AICore.add_to_temp_memory interactions []
              = skipn (List.length interactions - 20) interactions).
  { induction interactions as [|x l IH] using rev_ind; [reflexivity|].
    rewrite fold_left_app. simpl. rewrite IH. apply CoreFacts.last20. }
  split; [exact E|]. rewrite E, length_skipn. lia.
Qed.

(** X18. A reply with one fenced block is read from the block: when the
    text before the fence and the block hold no backtick and
    [json.loads] turns the trimmed block into a dictionary, the response
    is built from its keys, with the defaults for missing ones and an
    empty list for a null list of commands, whatever follows the closing
    fence. *)
Theorem fenced_reply_round_trip (json_loads : string -> option AICore.json)
    (pre body post : string) (members : list (string * AICore.json)) :
  contains "`" pre = false ->
  contains "`" body = false ->
  json_loads (strip body) = Some (AICore.JObject members) ->
  AICore._parse_ai_response json_loads (pre ++ AICore.fence ++ body ++ "```" ++ post)
  = AICore.mkAIResponse
      (AICore.dict_get members "message" (AICore.JString ""))
      (AICore.none_to_empty (AICore.dict_get members "commands" (AICore.JArray [])))
      (AICore.dict_get members "needs_clarification" (AICore.JBool false))
      (AICore.dict_get members "confidence" (AICore.JNumber "1.0"))
      (AICore.dict_get members "thinking_mode" (AICore.JBool false))
      (AICore.none_to_empty
         (AICore.dict_get members "exploration_commands" (AICore.JArray []))).
Proof.
  intros Hp Hb Hj. unfold AICore._parse_ai_response.
  destruct (CoreFacts.fence_found pre (body ++ "```" ++ post) Hp) as [C _].
  rewrite C, (CoreFacts.fenced_json_closed pre body post Hp Hb), Hj. reflexivity.
Qed.

(** X19. A fence that is not closed costs the block its last character:
    when the text before the fence and the text behind it hold no
    backtick, what is handed to [json.loads] is the text behind the
    fence without its last character, trimmed, and the response is built
    from that, or is the apology when it is no dictionary. *)
Theorem open_fence_drops_last_character (json_loads : string -> option AICore.json)
    (pre body : string) :
  contains "`" pre = false ->
  contains "`" body = false ->
  AICore.fenced_json (pre ++ AICore.fence ++ body)
  = strip (ShellInput.drop_last 1 body)
  /\ AICore._parse_ai_response json_loads (pre ++ AICore.fence ++ body)
     = match json_loads (strip (ShellInput.drop_last 1 body)) with
       | Some data =>
           match AICore.response_of data with
           | Some r => r
           | None =>
               AICore.plain_response "Sorry, I couldn't parse that response properly."
           end
       | None => AICore.plain_response "Sorry, I couldn't parse that response properly."
       end.
Proof.
  intros Hp Hb.
  pose proof (CoreFacts.fenced_json_open pre body Hp Hb) as E.
  split; [exact E|]. unfold AICore._parse_ai_response.
  destruct (CoreFacts.fence_found pre body Hp) as [C _]. now rewrite C, E.
Qed.

Lemma open_fence_drops_last_character_witness :
  AICore.fenced_json ("Here you are: " ++ AICore.fence ++ " {}") = "{"
  /\ AICore._parse_ai_response json_loads_braces
       ("Here you are: " ++ AICore.fence ++ " {}")
     = AICore.plain_response "Sorry, I couldn't parse that response properly.".
Proof.
  exact (open_fence_drops_last_character json_loads_braces "Here you are: " " {}"
           eq_refl eq_refl).
Defined.

Lemma fenced_reply_round_trip_witness :
  AICore._parse_ai_response json_loads_braces
    ("Here you are: " ++ AICore.fence ++ " {} " ++ "```" ++ " Anything else?")
  = AICore.mkAIResponse (AICore.JString "") (AICore.JArray []) (AICore.JBool false)
      (AICore.JNumber "1.0") (AICore.JBool false) (AICore.JArray []).
Proof.
  exact (fenced_reply_round_trip json_loads_braces "Here you are: " " {} "
           " Anything else?" [] eq_refl eq_refl eq_refl).
Defined.

Lemma exploration_runs_every_command_witness :
  snd (AICore.explore env_work "what is in t" "/work" ["ls"; "cd t"; "false"; "ls t"])
  = [EvSubprocessShell "ls" "/work"; EvSubprocessShell "false" "/work";
     EvSubprocessShell "ls t" "/work"].
Proof.
  destruct (proj2 (exploration_runs_every_command env_work "what is in t" "/work"
                     ["ls"; "cd t"; "false"; "ls t"]) _ eq_refl) as (_ & _ & E).
  exact E.
Defined.

(* ================================================================== *)
(** ** Further properties of the PTY session and of directory changes *)
(* ================================================================== *)

(** X21. An interrupt that leaves the body of a session that has its PTY
    and its child (raised by [poll], [select] or [process.wait()]): the
    process group first gets SIGTERM, it gets SIGKILL exactly when that
    signal or the wait of two seconds raised, and the terminal is
    restored after the signals; the session ends with exit code -1 and
    the output collected so far, when the lines behind the handler are
    shown. *)
Theorem interrupt_escalates_to_kill (env : os_env) (st : shell_state)
    (command : string) (master_fd slave_fd pid : Z) (buf : string) (ev : list event) :
  let sc := pty_script env command (current_dir st) in
  let run := _execute_interactive_command env st command in
  announce env command = Ok tt ->
  s_openpty sc = Ok (master_fd, slave_fd) ->
  s_popen sc = Ok pid ->
  s_close_slave sc = Ok tt ->
  session_body env master_fd sc = (Raise KeyboardInterrupt, buf, ev) ->
  (say env (LF ++ "[yellow]Program interrupted[/yellow]") = Ok tt ->
   report env (-1) = Ok tt ->
   fst (fst run) = Ok ((-1)%Z, buf, ""))
  /\ exists before after,
       snd run = (before ++ ev ++ EvKillpg SIGTERM :: after
                  ++ restore_events (captured sc st) master_fd)%list
       /\ (In (EvKillpg SIGKILL) after <->
           ~ (s_term sc = Ok tt /\ exists rc, s_wait_term sc = Ok rc)).
Proof.
  intros sc run Ha Ho Hp Hc Hb. subst run. unfold _execute_interactive_command.
  fold sc. rewrite Ha, Ho, Hp, Hc.
  set (st2 := set_fds _ _).
  destruct (SessionFacts.interrupt_reaching_handler env master_fd sc st2 buf ev Hb)
    as [T R].
  destruct (session env master_fd sc st2) as [[r st3] tr]. cbn [fst snd] in *. subst tr.
  split; [intros Hs Hr; now rewrite (R Hs Hr)|].
  replace (captured sc st2) with (captured sc st) by reflexivity.
  assert (K : exists after, on_interrupt sc = EvKillpg SIGTERM :: after
            /\ (In (EvKillpg SIGKILL) after <->
                ~ (s_term sc = Ok tt /\ exists rc, s_wait_term sc = Ok rc))).
  { unfold on_interrupt, force_kill.
    destruct (s_term sc) as [[]|e1].
    - destruct (s_wait_term sc) as [rc|e2].
      + eexists; split; [reflexivity|]. split.
        * simpl. intros [H|[]]; discriminate.
        * intros N. exfalso. apply N. split; [reflexivity|now exists rc].
      + eexists; split; [reflexivity|]. split.
        * intros _ [_ [rc H]]. discriminate.
        * intros _. destruct (s_kill sc); simpl; auto.
    - eexists; split; [reflexivity|]. split.
      + intros _ [H _]. discriminate.
      + intros _. destruct (s_kill sc); simpl; auto. }
  destruct K as (after & E & I). rewrite E.
  exists ([EvOpenpty; EvPopen command slave_fd (current_dir st); EvClose slave_fd]
          ++ snd (enter_raw env sc st2))%list, after.
  split; [|exact I].
  rewrite <- !app_assoc. reflexivity.
Qed.

Lemma interrupt_escalates_to_kill_witness :
  fst (fst (_execute_interactive_command (env_pty sc_interrupt_in_select) st0 "python -i"))
  = Ok ((-1)%Z, ">>> ", "").
Proof.
  refine (proj1 (interrupt_escalates_to_kill (env_pty sc_interrupt_in_select) st0
                   "python -i" 3 4 4242 ">>> "
                   [EvPoll; EvSelect true; EvRead 3; EvPrint ">>> "; EvPoll; EvSelect true]
                   _ _ _ _ _) _ _); reflexivity.
Defined.

(** X22. When the child cannot be spawned after the announcement was
    shown and the PTY pair was opened, [_execute_interactive_command]
    leaves through its handler at the end, before the [try]/[finally]
    that closes the master: both descriptors of the pair stay open,
    nothing is closed and the terminal is not touched; the handler
    answers as it does for every exception. *)
Theorem spawn_failure_leaks_pty_pair (env : os_env) (st : shell_state)
    (command : string) (master_fd slave_fd : Z) (e : exn) :
  let run := _execute_interactive_command env st command in
  let st' := snd (fst run) in
  announce env command = Ok tt ->
  s_openpty (pty_script env command (current_dir st)) = Ok (master_fd, slave_fd) ->
  s_popen (pty_script env command (current_dir st)) = Raise e ->
  fst (fst run) = on_exception env e
  /\ In master_fd (open_fds st') /\ In slave_fd (open_fds st')
  /\ tty_attrs st' = tty_attrs st
  /\ (forall fd, ~ In (EvClose fd) (snd run)).
Proof.
  intros run st' Ha Ho Hp. subst st' run. unfold _execute_interactive_command.
  rewrite Ha, Ho, Hp. simpl. repeat split; auto.
  intros fd [H|[H|[]]]; discriminate.
Qed.

Lemma spawn_failure_leaks_pty_pair_witness :
  In 3%Z (open_fds (snd (fst (_execute_interactive_command
     (env_pty (mkScript (Ok (3, 4)%Z) (Raise (Exception "fork failed")) (Ok tt) (Ok tt)
                 (Ok tt) [] (Ok tt) (Ok 0%Z) [] (Ok tt) (Ok 0%Z) (Ok tt) (Ok 0%Z)
                 (Ok tt) (Ok tt)))
     st0 "vim notes.txt")))).
Proof.
  exact (proj1 (proj2 (spawn_failure_leaks_pty_pair
     (env_pty (mkScript (Ok (3, 4)%Z) (Raise (Exception "fork failed")) (Ok tt) (Ok tt)
                 (Ok tt) [] (Ok tt) (Ok 0%Z) [] (Ok tt) (Ok 0%Z) (Ok tt) (Ok 0%Z)
                 (Ok tt) (Ok tt)))
     st0 "vim notes.txt" 3 4 (Exception "fork failed") eq_refl eq_refl eq_refl))).
Defined.

(** X23. A directory change never consults the home directory: two
    environments that expand paths, change directories and name the
    working directory alike give the same result, whatever their home
    directories are.  The default [path = str(Path.home())] of
    [_execute_command] is never taken. *)
Theorem cd_never_consults_home (env1 env2 : os_env) (st : shell_state)
    (command : string) :
  (forall p, expanduser env1 p = expanduser env2 p) ->
  (forall cwd p, os_chdir env1 cwd p = os_chdir env2 cwd p) ->
  (forall d, os_getcwd env1 d = os_getcwd env2 d) ->
  is_cd command = true ->
  _execute_command env1 st command = _execute_command env2 st command.
Proof.
  intros He Hc Hg Hcd. unfold _execute_command. rewrite Hcd.
  rewrite !(cd_target_is_argument _ _ Hcd), He, Hc.
  destruct (os_chdir env2 (proc_cwd st) _) as [d|e]; [|reflexivity].
  now rewrite Hg.
Qed.

Lemma cd_never_consults_home_witness :
  _execute_command env_work st0 "cd t"
  = _execute_command
      (mkEnv "/elsewhere" (expanduser env_work) (os_chdir env_work) (os_getcwd env_work)
         (console_print env_work) (isfile env_work)
         (access_x env_work) (subprocess_shell env_work) (decode env_work)
         (raw_mode env_work) (pty_script env_work))
      st0 "cd t".
Proof.
  apply cd_never_consults_home; reflexivity.
Defined.
